(** * Benchmark version utilities (src/lib/benchmarkVersionUtils.ts) and the
      cancellation hook (src/hooks/useBenchmarkCancellation.ts)

    A shallow embedding of the four exported functions of
    [benchmarkVersionUtils.ts] and of [handleCancelRun], with the properties
    the specification states about them.

    Layout:
    - JavaScript values and array primitives the code relies on;
    - the data model ([@/types] and [VersionData]);
    - the four functions as pure functions over lists;
    - an operational model of the same code over a heap of arrays with
      exceptions (in-place [sort], copying [slice] and spread, property reads
      on [undefined]), and its agreement with the pure functions;
    - the cancellation hook as a program over the hook's state cell;
    - the theorems. *)

From Stdlib Require Import ZArith List String Bool Lia Sorted Permutation.
From stdpp Require Import base option list gmap strings.
Import ListNotations.

Local Open Scope Z_scope.
Local Open Scope list_scope.

(* ===================================================================== *)
(** ** JavaScript values and array primitives *)
(* ===================================================================== *)

(** A JavaScript [number] as far as this code can tell numbers apart: an
    integer or [NaN].  Fractions and infinities play no role in version
    numbers and are left out. *)
Inductive number : Type :=
| Int (z : Z)
| NaN.

#[global] Instance number_eq_dec : EqDecision number.
Proof. solve_decision. Defined.

(** [ToBoolean] on a number: [0] and [NaN] are falsy. *)
Definition truthy (n : number) : bool :=
  match n with
  | Int z => negb (z =? 0)
  | NaN => false
  end.

(** [a || d] where [a] is an optional number ([None] is [undefined]) and [d]
    a number: the left operand when it is truthy, else the right one. *)
Definition js_or (a : option number) (d : number) : number :=
  match a with
  | Some n => if truthy n then n else d
  | None => d
  end.

(** [a === b] on numbers: [NaN] is equal to nothing. *)
Definition strict_eq (a b : number) : bool :=
  match a, b with
  | Int x, Int y => x =? y
  | _, _ => false
  end.

(** [arr.includes(x)] on an array of strings. *)
Definition includes (arr : list string) (x : string) : bool :=
  existsb (fun y => String.eqb y x) arr.

(** [arr.find(p)]: the first element satisfying [p], else [undefined]. *)
Definition js_find {A : Type} (p : A -> bool) (arr : list A) : option A :=
  List.find p arr.

(** [Array.prototype.sort(cmp)] is a stable sort; for a comparator that is
    consistent (as a difference of integer keys is) every stable sort
    returns the same array ([js_sort_unique] below), here computed by
    insertion.  [cmp x y <= 0] keeps [x], which came first, in front of
    [y]. *)
Fixpoint sort_insert {A : Type} (cmp : A -> A -> Z) (x : A) (l : list A) : list A :=
  match l with
  | [] => [x]
  | y :: ys => if cmp x y <=? 0 then x :: y :: ys else y :: sort_insert cmp x ys
  end.

Fixpoint js_sort {A : Type} (cmp : A -> A -> Z) (l : list A) : list A :=
  match l with
  | [] => []
  | x :: xs => sort_insert cmp x (js_sort cmp xs)
  end.

(** [arr.map((v, index, arr) => f v index arr)]. *)
Fixpoint map_from {A B : Type} (f : A -> nat -> B) (i : nat) (l : list A) : list B :=
  match l with
  | [] => []
  | x :: xs => f x i :: map_from f (S i) xs
  end.

Definition js_map {A B : Type} (f : A -> nat -> list A -> B) (arr : list A) : list B :=
  map_from (fun v i => f v i arr) 0%nat arr.

(* ===================================================================== *)
(** ** Data model *)
(* ===================================================================== *)

(** The type declarations of [@/types] ([BenchmarkVersion], [BenchmarkRun],
    [Benchmark], [TestCase]) are not part of the sources.  The records below
    have the fields the functions read, with the types section 3 of the
    specification gives them.  Version numbers are integers. *)

Module BenchmarkVersion.
(** Modelled from the spec: the type [BenchmarkVersion] of [@/types],
    [{version: integer, createdAt: timestamp, testCaseIds: sequence of string
    identifiers}]. *)
Record t : Type := mk {
  version : Z;
  createdAt : string;
  testCaseIds : list string;
}.
End BenchmarkVersion.

Module BenchmarkRun.
(** Modelled from the spec: the type [BenchmarkRun] of [@/types],
    [{id, createdAt: timestamp, benchmarkVersion: optional}]; the other
    fields of a run are not read.  [benchmarkVersion] is a JavaScript number
    when present, so that [0] and [NaN] can be told from a version. *)
Record t : Type := mk {
  id : string;
  createdAt : string;
  benchmarkVersion : option number;
}.
End BenchmarkRun.

Module Benchmark.
(** Modelled from the spec: the type [Benchmark] of [@/types], as far as the
    functions read it.  Both collections may be absent: the code guards
    [versions] with [!benchmark?.versions] and [runs] with [?.]. *)
Record t : Type := mk {
  versions : option (list BenchmarkVersion.t);
  runs : option (list BenchmarkRun.t);
}.
End Benchmark.

Module TestCase.
(** Modelled from the spec: the type [TestCase] of [@/types], [{id, ...display
    fields}], with [name] standing for the display fields. *)
Record t : Type := mk {
  id : string;
  name : string;
}.
End TestCase.

Module VersionData.
(** [interface VersionData]: the fields of the version ([...v]) and the
    derived ones. *)
Record t : Type := mk {
  version : Z;
  createdAt : string;
  testCaseIds : list string;
  isLatest : bool;
  added : list string;
  removed : list string;
  runCount : nat;
}.
End VersionData.

(** [(run.benchmarkVersion || 1)], the expression that [computeVersionData]
    and [filterRunsByVersion] both compare with a version number. *)
Definition effectiveVersion (r : BenchmarkRun.t) : number :=
  js_or (BenchmarkRun.benchmarkVersion r) (Int 1).

(** The effective version of a run in the specification's words:
    [run.benchmarkVersion] if present, else [1]. *)
Definition specEffectiveVersion (r : BenchmarkRun.t) : number :=
  match BenchmarkRun.benchmarkVersion r with
  | Some n => n
  | None => Int 1
  end.

(** [versionFilter: number | 'all']. *)
Inductive versionFilter : Type :=
| All
| Version (n : Z).

(* ===================================================================== *)
(** ** The four functions *)
(* ===================================================================== *)

(** The callback of [.map] in [computeVersionData]; [runs] is
    [benchmark.runs]. *)
Definition versionDataOf (runs : option (list BenchmarkRun.t))
    (v : BenchmarkVersion.t) (index : nat) (arr : list BenchmarkVersion.t)
  : VersionData.t :=
  let prevVersion := arr !! (index + 1)%nat in
  let added :=
    match prevVersion with
    | Some p =>
        List.filter (fun id => negb (includes (BenchmarkVersion.testCaseIds p) id))
                    (BenchmarkVersion.testCaseIds v)
    | None => []
    end in
  let removed :=
    match prevVersion with
    | Some p =>
        List.filter (fun id => negb (includes (BenchmarkVersion.testCaseIds v) id))
                    (BenchmarkVersion.testCaseIds p)
    | None => []
    end in
  let runCount :=
    match runs with
    | Some rs =>
        length (List.filter
                  (fun r => strict_eq (js_or (BenchmarkRun.benchmarkVersion r) (Int 1))
                                      (Int (BenchmarkVersion.version v)))
                  rs)
    | None => 0%nat
    end in
  {| VersionData.version := BenchmarkVersion.version v;
     VersionData.createdAt := BenchmarkVersion.createdAt v;
     VersionData.testCaseIds := BenchmarkVersion.testCaseIds v;
     VersionData.isLatest := (index =? 0)%nat;
     VersionData.added := added;
     VersionData.removed := removed;
     VersionData.runCount := runCount |}.

(** The comparator [(a, b) => b.version - a.version]. *)
Definition byVersionDesc (a b : BenchmarkVersion.t) : Z :=
  BenchmarkVersion.version b - BenchmarkVersion.version a.

(** [computeVersionData(benchmark)]: [[]] when
    [!benchmark?.versions || benchmark.versions.length === 0], else
    [benchmark.versions.slice().sort(...).map(...)]. *)
Definition computeVersionData (benchmark : option Benchmark.t) : list VersionData.t :=
  match benchmark with
  | None => []
  | Some b =>
      match Benchmark.versions b with
      | None => []
      | Some vs =>
          if (length vs =? 0)%nat then []
          else js_map (versionDataOf (Benchmark.runs b)) (js_sort byVersionDesc vs)
      end
  end.

(** [getSelectedVersionData(versionData, selectedVersion)]; [None] is
    [null], for the selection and for the result. *)
Definition getSelectedVersionData (versionData : list VersionData.t)
    (selectedVersion : option Z) : option VersionData.t :=
  if (length versionData =? 0)%nat then None
  else
    match selectedVersion with
    | None => versionData !! 0%nat
    | Some sel =>
        match js_find (fun v => VersionData.version v =? sel) versionData with
        | Some v => Some v
        | None => versionData !! 0%nat
        end
    end.

(** [getVersionTestCases(testCases, selectedVersionData)]. *)
Definition getVersionTestCases (testCases : list TestCase.t)
    (selectedVersionData : option VersionData.t) : list TestCase.t :=
  match selectedVersionData with
  | None => []
  | Some vd =>
      List.filter (fun tc => includes (VersionData.testCaseIds vd) (TestCase.id tc))
                  testCases
  end.

Section RunFilter.

(** [new Date(s).getTime()], milliseconds since the epoch, on the timestamps
    the runs carry.  Runs are taken to carry well-formed timestamps, as the
    specification assumes; a string that is no date would give [NaN]. *)
Variable getTime : string -> Z.

(** The comparator
    [(a, b) => new Date(b.createdAt).getTime() - new Date(a.createdAt).getTime()]. *)
Definition byCreatedAtDesc (a b : BenchmarkRun.t) : Z :=
  getTime (BenchmarkRun.createdAt b) - getTime (BenchmarkRun.createdAt a).

(** [filterRunsByVersion(runs, versionFilter)]; [None] is [undefined]. *)
Definition filterRunsByVersion (runs : option (list BenchmarkRun.t))
    (versionFilter : versionFilter) : list BenchmarkRun.t :=
  match runs with
  | None => []
  | Some rs =>
      let sorted := js_sort byCreatedAtDesc rs in
      match versionFilter with
      | All => sorted
      | Version n =>
          List.filter
            (fun run => strict_eq (js_or (BenchmarkRun.benchmarkVersion run) (Int 1))
                                  (Int n))
            sorted
      end
  end.

(** Sorted descending by [createdAt]: every run is at least as recent as
    all the runs after it. *)
Definition newestFirst (l : list BenchmarkRun.t) : Prop :=
  StronglySorted
    (fun a b => getTime (BenchmarkRun.createdAt b) <= getTime (BenchmarkRun.createdAt a))
    l.

End RunFilter.

(* ===================================================================== *)
(** ** Operational model: exceptions and a heap of arrays *)
(* ===================================================================== *)

(** What a JavaScript evaluation can end with besides a value. *)
Inductive exn : Type :=
| TypeError                  (* property read or method call on [undefined]/[null] *)
| Rejected (reason : string) (* an error raised by a collaborator *)
| InvalidReference.          (* a location with no array behind it; JavaScript
                                references are always live, so this marks a
                                heap that is not well formed *)

Inductive result (A : Type) : Type :=
| Ok (a : A)
| Throw (e : exn).
Arguments Ok {A} a.
Arguments Throw {A} e.

(** Programs over a state [S] that may throw; the state reached at a
    [Throw] is kept, as [catch] and [finally] see it. *)
Definition Prog (S A : Type) : Type := S -> S * result A.

Definition ret {S A : Type} (a : A) : Prog S A := fun s => (s, Ok a).

Definition throw {S A : Type} (e : exn) : Prog S A := fun s => (s, Throw e).

Definition bind {S A B : Type} (m : Prog S A) (k : A -> Prog S B) : Prog S B :=
  fun s =>
    match m s with
    | (s', Ok a) => k a s'
    | (s', Throw e) => (s', Throw e)
    end.

Notation "'let*' x := m 'in' k" := (bind m (fun x => k))
  (at level 10, x name, m at level 100, k at level 200).
Notation "'exec' m 'in' k" := (bind m (fun _ => k))
  (at level 10, m at level 100, k at level 200).

(** [try { body } catch (e) { handler e } finally { final }]. *)
Definition try_catch_finally {S A : Type} (body : Prog S A)
    (handler : exn -> Prog S A) (final : Prog S unit) : Prog S A :=
  fun s =>
    let '(s1, r1) := body s in
    let '(s2, r2) :=
      match r1 with
      | Ok a => (s1, Ok a)
      | Throw e => handler e s1
      end in
    match final s2 with
    | (s3, Ok _) => (s3, r2)
    | (s3, Throw e) => (s3, Throw e)
    end.

(** [o.f] where [o] may be [undefined] or [null]. *)
Definition prop {S O A : Type} (f : O -> A) (o : option O) : Prog S A :=
  match o with
  | Some x => ret (f x)
  | None => throw TypeError
  end.

(** [ToBoolean] on an optional object or array. *)
Definition defined {A : Type} (o : option A) : bool :=
  match o with
  | Some _ => true
  | None => false
  end.

(** Arrays the code sorts live in the heap and are passed by reference.
    [sort] works in place; [slice], spread and [filter] allocate. *)
Definition loc : Type := positive.

Record heap : Type := mkHeap {
  versionArrays : gmap loc (list BenchmarkVersion.t);
  runArrays : gmap loc (list BenchmarkRun.t);
}.

Module Arr.

Definition read_versions (r : option loc) : Prog heap (list BenchmarkVersion.t) :=
  fun h =>
    match r with
    | None => (h, Throw TypeError)
    | Some l =>
        match versionArrays h !! l with
        | Some a => (h, Ok a)
        | None => (h, Throw InvalidReference)
        end
    end.

Definition alloc_versions (a : list BenchmarkVersion.t) : Prog heap loc :=
  fun h =>
    let l := fresh (dom (versionArrays h)) in
    (mkHeap (<[l := a]> (versionArrays h)) (runArrays h), Ok l).

Definition write_versions (l : loc) (a : list BenchmarkVersion.t) : Prog heap unit :=
  fun h => (mkHeap (<[l := a]> (versionArrays h)) (runArrays h), Ok tt).

Definition read_runs (r : option loc) : Prog heap (list BenchmarkRun.t) :=
  fun h =>
    match r with
    | None => (h, Throw TypeError)
    | Some l =>
        match runArrays h !! l with
        | Some a => (h, Ok a)
        | None => (h, Throw InvalidReference)
        end
    end.

Definition alloc_runs (a : list BenchmarkRun.t) : Prog heap loc :=
  fun h =>
    let l := fresh (dom (runArrays h)) in
    (mkHeap (versionArrays h) (<[l := a]> (runArrays h)), Ok l).

Definition write_runs (l : loc) (a : list BenchmarkRun.t) : Prog heap unit :=
  fun h => (mkHeap (versionArrays h) (<[l := a]> (runArrays h)), Ok tt).

(** [versions.slice()]: a fresh array with the same elements. *)
Definition slice_versions (r : option loc) : Prog heap loc :=
  let* a := read_versions r in alloc_versions a.

(** [arr.sort(cmp)]: sorts [arr] itself and returns the same reference. *)
Definition sort_versions (cmp : BenchmarkVersion.t -> BenchmarkVersion.t -> Z)
    (l : loc) : Prog heap loc :=
  let* a := read_versions (Some l) in
  exec write_versions l (js_sort cmp a) in
  ret l.

(** [[...runs]]: a fresh array with the same elements. *)
Definition spread_runs (r : option loc) : Prog heap loc :=
  let* a := read_runs r in alloc_runs a.

Definition sort_runs (cmp : BenchmarkRun.t -> BenchmarkRun.t -> Z)
    (l : loc) : Prog heap loc :=
  let* a := read_runs (Some l) in
  exec write_runs l (js_sort cmp a) in
  ret l.

(** [runs.filter(p)]: a fresh array. *)
Definition filter_runs (p : BenchmarkRun.t -> bool) (l : loc) : Prog heap loc :=
  let* a := read_runs (Some l) in alloc_runs (List.filter p a).

Definition length_runs (l : loc) : Prog heap nat :=
  let* a := read_runs (Some l) in ret (length a).

Definition length_versions (r : option loc) : Prog heap nat :=
  let* a := read_versions r in ret (length a).

End Arr.

(** [arr.map(f)] and [arr.filter(p)] with a callback that runs in [Prog]. *)
Fixpoint mapM_from {St A B : Type} (f : A -> nat -> Prog St B) (i : nat) (l : list A)
  : Prog St (list B) :=
  match l with
  | [] => ret []
  | x :: xs =>
      let* y := f x i in
      let* ys := mapM_from f (S i) xs in
      ret (y :: ys)
  end.

Fixpoint filterM {St A : Type} (p : A -> Prog St bool) (l : list A) : Prog St (list A) :=
  match l with
  | [] => ret []
  | x :: xs =>
      let* keep := p x in
      let* ys := filterM p xs in
      ret (if keep then x :: ys else ys)
  end.

(** A benchmark object as the code holds it: its arrays by reference. *)
Module BenchmarkObj.
Record t : Type := mk {
  versions : option loc;
  runs : option loc;
}.
End BenchmarkObj.

(** [o?.f]. *)
Definition opt_chain {O A : Type} (f : O -> option A) (o : option O) : option A :=
  match o with
  | Some x => f x
  | None => None
  end.

Module Op.

(** The [.map] callback; [arr] is the sorted copy. *)
Definition versionDataOf (benchmark : option BenchmarkObj.t)
    (v : BenchmarkVersion.t) (index : nat) (arr : loc) : Prog heap VersionData.t :=
  let* a := Arr.read_versions (Some arr) in
  let prevVersion := a !! (index + 1)%nat in
  let* added :=
    if defined prevVersion then
      filterM
        (fun id =>
           let* prevIds := prop BenchmarkVersion.testCaseIds prevVersion in
           ret (negb (includes prevIds id)))
        (BenchmarkVersion.testCaseIds v)
    else ret [] in
  let* removed :=
    if defined prevVersion then
      let* prevIds := prop BenchmarkVersion.testCaseIds prevVersion in
      ret (List.filter (fun id => negb (includes (BenchmarkVersion.testCaseIds v) id))
                       prevIds)
    else ret [] in
  let* runs := prop BenchmarkObj.runs benchmark in
  let* runCount :=
    match runs with
    | None => ret 0%nat
    | Some rs =>
        let* matching :=
          Arr.filter_runs
            (fun r => strict_eq (js_or (BenchmarkRun.benchmarkVersion r) (Int 1))
                                (Int (BenchmarkVersion.version v)))
            rs in
        Arr.length_runs matching
    end in
  ret {| VersionData.version := BenchmarkVersion.version v;
         VersionData.createdAt := BenchmarkVersion.createdAt v;
         VersionData.testCaseIds := BenchmarkVersion.testCaseIds v;
         VersionData.isLatest := (index =? 0)%nat;
         VersionData.added := added;
         VersionData.removed := removed;
         VersionData.runCount := runCount |}.

Definition computeVersionData (benchmark : option BenchmarkObj.t)
  : Prog heap (list VersionData.t) :=
  let* stop :=
    if negb (defined (opt_chain BenchmarkObj.versions benchmark)) then ret true
    else
      let* vs := prop BenchmarkObj.versions benchmark in
      let* n := Arr.length_versions vs in
      ret (n =? 0)%nat in
  if stop : bool then ret []
  else
    let* vs := prop BenchmarkObj.versions benchmark in
    let* copy := Arr.slice_versions vs in
    let* sorted := Arr.sort_versions byVersionDesc copy in
    let* a := Arr.read_versions (Some sorted) in
    mapM_from (fun v index => versionDataOf benchmark v index sorted) 0%nat a.

Definition getSelectedVersionData (versionData : list VersionData.t)
    (selectedVersion : option Z) : Prog heap (option VersionData.t) :=
  if (length versionData =? 0)%nat then ret None
  else
    match selectedVersion with
    | None => ret (versionData !! 0%nat)
    | Some sel =>
        match js_find (fun v => VersionData.version v =? sel) versionData with
        | Some v => ret (Some v)
        | None => ret (versionData !! 0%nat)
        end
    end.

Definition getVersionTestCases (testCases : list TestCase.t)
    (selectedVersionData : option VersionData.t) : Prog heap (list TestCase.t) :=
  if negb (defined selectedVersionData) then ret []
  else
    filterM
      (fun tc =>
         let* ids := prop VersionData.testCaseIds selectedVersionData in
         ret (includes ids (TestCase.id tc)))
      testCases.

Section RunFilter.

Variable getTime : string -> Z.

Definition filterRunsByVersion (runs : option loc) (versionFilter : versionFilter)
  : Prog heap loc :=
  if negb (defined runs) then Arr.alloc_runs []
  else
    let* copy := Arr.spread_runs runs in
    let* sorted := Arr.sort_runs (byCreatedAtDesc getTime) copy in
    match versionFilter with
    | All => ret sorted
    | Version n =>
        Arr.filter_runs
          (fun run =>
             strict_eq (js_or (BenchmarkRun.benchmarkVersion run) (Int 1)) (Int n))
          sorted
    end.

End RunFilter.

End Op.

(** What a benchmark object denotes in a heap. *)
Definition benchmarkIn (h : heap) (b : BenchmarkObj.t) : Benchmark.t :=
  {| Benchmark.versions := opt_chain (fun l => versionArrays h !! l) (BenchmarkObj.versions b);
     Benchmark.runs := opt_chain (fun l => runArrays h !! l) (BenchmarkObj.runs b) |}.

(** Every array of [h] is still in [h'], at the same location, with the
    same elements in the same order. *)
Definition unchanged (h h' : heap) : Prop :=
  (forall l a, versionArrays h !! l = Some a -> versionArrays h' !! l = Some a)
  /\ (forall l a, runArrays h !! l = Some a -> runArrays h' !! l = Some a).

(** A program that leaves every array it is started with unchanged,
    whether it returns or throws. *)
Definition preserves {A : Type} (m : Prog heap A) : Prop :=
  forall h, unchanged h (m h).1.

(** The references of a benchmark object point to arrays of the heap. *)
Definition live (h : heap) (benchmark : option BenchmarkObj.t) : Prop :=
  forall b, benchmark = Some b ->
    (forall l, BenchmarkObj.versions b = Some l -> is_Some (versionArrays h !! l))
    /\ (forall l, BenchmarkObj.runs b = Some l -> is_Some (runArrays h !! l)).

(* ===================================================================== *)
(** ** The cancellation hook (useBenchmarkCancellation.ts) *)
(* ===================================================================== *)

Module Hook.

(** What a call of [handleCancelRun] does that the rest of the page can
    observe, in order. *)
Inductive event : Type :=
| SetCancellingRunId (v : option string)
| CancelBenchmarkRun (benchmarkId runId : string)
| OnSuccess
| ConsoleError (msg : string) (error : exn).

(** The [useState] cell, and the events so far. *)
Record state : Type := mk {
  cancellingRunId : option string;
  events : list event;
}.

Definition emit (e : event) : Prog state unit :=
  fun s => (mk (cancellingRunId s) (events s ++ [e]), Ok tt).

Definition setCancellingRunId (v : option string) : Prog state unit :=
  fun s => (mk v (events s ++ [SetCancellingRunId v]), Ok tt).

(** [await f(...)] on a collaborator whose promise settles with [outcome]. *)
Definition await (call : event) (outcome : result unit) : Prog state unit :=
  fun s => (mk (cancellingRunId s) (events s ++ [call]), outcome).

(** [cancellingRunId === runId]. *)
Definition isCancelling (s : state) (runId : string) : bool :=
  match cancellingRunId s with
  | Some r => String.eqb r runId
  | None => false
  end.

Section HandleCancelRun.

(** How the remote call [cancelBenchmarkRun(benchmarkId, runId)]
    settles. *)
Variable cancelBenchmarkRun : string -> string -> result unit.

(** [onSuccess] is absent, or a callback that settles with the given
    outcome. *)
Definition handleCancelRun (benchmarkId runId : string)
    (onSuccess : option (result unit)) : Prog state unit :=
  exec setCancellingRunId (Some runId) in
  try_catch_finally
    (exec await (CancelBenchmarkRun benchmarkId runId)
                (cancelBenchmarkRun benchmarkId runId) in
     match onSuccess with
     | Some outcome => await OnSuccess outcome
     | None => ret tt
     end)
    (fun error => emit (ConsoleError "Failed to cancel run:" error))
    (setCancellingRunId None).

End HandleCancelRun.

End Hook.

(* ===================================================================== *)
(** ** The cancellation hook, one [await] at a time *)
(* ===================================================================== *)

(** [handleCancelRun] is an [async] function: it runs up to an [await],
    is suspended there while other code (another call among it) runs, and
    is resumed when the awaited promise settles. *)
Module HookAsync.

(** Where a call is suspended. *)
Inductive suspended : Type :=
| AtCancel (hasOnSuccess : bool)  (* at [await cancelBenchmarkRun(benchmarkId, runId)] *)
| AtOnSuccess.                    (* at [await onSuccess()] *)

(** From the call to the first [await]: [setCancellingRunId(runId)], then
    the remote call is made. *)
Definition start (benchmarkId runId : string) (hasOnSuccess : bool) (s : Hook.state)
  : Hook.state * suspended :=
  let s1 := (Hook.setCancellingRunId (Some runId) s).1 in
  ((Hook.emit (Hook.CancelBenchmarkRun benchmarkId runId) s1).1, AtCancel hasOnSuccess).

(** The [finally] block. *)
Definition finish (s : Hook.state) : Hook.state :=
  (Hook.setCancellingRunId None s).1.

(** The [catch] block, then the [finally] block. *)
Definition fail (error : exn) (s : Hook.state) : Hook.state :=
  finish (Hook.emit (Hook.ConsoleError "Failed to cancel run:" error) s).1.

(** The awaited promise settles with [outcome]: the call runs to its next
    [await] ([Some] where) or to its end ([None]). *)
Definition resume (at_ : suspended) (outcome : result unit) (s : Hook.state)
  : Hook.state * option suspended :=
  match outcome with
  | Throw error => (fail error s, None)
  | Ok _ =>
      match at_ with
      | AtCancel true => ((Hook.emit Hook.OnSuccess s).1, Some AtOnSuccess)
      | AtCancel false => (finish s, None)
      | AtOnSuccess => (finish s, None)
      end
  end.

(** A call run without anything in between, its promises settling as
    given. *)
Definition run_alone (benchmarkId runId : string) (cancelOutcome : result unit)
    (onSuccess : option (result unit)) (s : Hook.state) : Hook.state :=
  let '(s1, at1) := start benchmarkId runId (defined onSuccess) s in
  let '(s2, at2) := resume at1 cancelOutcome s1 in
  match at2, onSuccess with
  | Some at_, Some outcome => (resume at_ outcome s2).1
  | _, _ => s2
  end.

End HookAsync.

(* ===================================================================== *)
(** ** Sample data *)
(* ===================================================================== *)

(** The examples of section 8 of the specification, and a run whose
    [benchmarkVersion] is [0]. *)
Module Sample.

Local Open Scope string_scope.

Definition v1 : BenchmarkVersion.t :=
  BenchmarkVersion.mk 1 "2026-01-01T00:00:00Z" ["a"].
Definition v2 : BenchmarkVersion.t :=
  BenchmarkVersion.mk 2 "2026-01-02T00:00:00Z" ["a"; "b"].
Definition v3 : BenchmarkVersion.t :=
  BenchmarkVersion.mk 3 "2026-01-03T00:00:00Z" ["a"; "b"; "c"].

Definition r1 : BenchmarkRun.t :=
  BenchmarkRun.mk "r1" "2026-01-01T01:00:00Z" (Some (Int 1)).
Definition r2 : BenchmarkRun.t :=
  BenchmarkRun.mk "r2" "2026-01-02T01:00:00Z" (Some (Int 2)).
Definition r3 : BenchmarkRun.t :=
  BenchmarkRun.mk "r3" "2026-01-03T01:00:00Z" None.
Definition r0 : BenchmarkRun.t :=
  BenchmarkRun.mk "r0" "2026-01-04T01:00:00Z" (Some (Int 0)).

Definition versions : list BenchmarkVersion.t := [v1; v3; v2].
Definition runs : list BenchmarkRun.t := [r1; r2; r3].

Definition benchmark : Benchmark.t := Benchmark.mk (Some versions) (Some runs).

(** Milliseconds since the epoch of the timestamps above. *)
Definition getTime (s : string) : Z :=
  if String.eqb s "2026-01-01T01:00:00Z" then 1767229200000
  else if String.eqb s "2026-01-02T01:00:00Z" then 1767315600000
  else if String.eqb s "2026-01-03T01:00:00Z" then 1767402000000
  else if String.eqb s "2026-01-04T01:00:00Z" then 1767488400000
  else 0.

Definition d3 : VersionData.t :=
  VersionData.mk 3 "2026-01-03T00:00:00Z" ["a"; "b"; "c"] true ["c"] [] 0.
Definition d2 : VersionData.t :=
  VersionData.mk 2 "2026-01-02T00:00:00Z" ["a"; "b"] false ["b"] [] 1.
Definition d1 : VersionData.t :=
  VersionData.mk 1 "2026-01-01T00:00:00Z" ["a"] false [] [] 2.

(** The benchmark with its arrays in a heap, both at location 1 of their
    store. *)
Definition memory : heap :=
  mkHeap {[ 1%positive := versions ]} {[ 1%positive := runs ]}.
Definition benchmarkObj : BenchmarkObj.t :=
  BenchmarkObj.mk (Some 1%positive) (Some 1%positive).

Definition tcA : TestCase.t := TestCase.mk "a" "Test Case A".
Definition tcB : TestCase.t := TestCase.mk "b" "Test Case B".
Definition tcC : TestCase.t := TestCase.mk "c" "Test Case C".

End Sample.

(* ===================================================================== *)
(** ** Array primitives: basic facts *)
(* ===================================================================== *)

Lemma includes_elem_of (arr : list string) (x : string) :
  includes arr x = true <-> x ∈ arr.
Proof.
  unfold includes. rewrite existsb_exists. split.
  - intros (y & Hy & Heq). apply String.eqb_eq in Heq. subst y.
    by apply list_elem_of_In.
  - intros Hx. exists x. split; [by apply list_elem_of_In | apply String.eqb_refl].
Qed.

Lemma includes_false (arr : list string) (x : string) :
  includes arr x = false <-> x ∉ arr.
Proof.
  rewrite <- includes_elem_of. destruct (includes arr x); split; congruence.
Qed.

(** The boolean filter of the code against set difference on lists. *)
Lemma filter_not_included (xs ys : list string) :
  List.filter (fun id => negb (includes ys id)) xs = filter (fun id => id ∉ ys) xs.
Proof.
  induction xs as [|x xs IH]; [done|].
  simpl. rewrite filter_cons. destruct (includes ys x) eqn:E; simpl.
  - apply includes_elem_of in E. by rewrite decide_False by tauto.
  - apply includes_false in E. rewrite decide_True by done. by f_equal.
Qed.

Lemma filter_included (A : Type) (key : A -> string) (xs : list A) (ys : list string) :
  List.filter (fun x => includes ys (key x)) xs = filter (fun x => key x ∈ ys) xs.
Proof.
  induction xs as [|x xs IH]; [done|].
  simpl. rewrite filter_cons. destruct (includes ys (key x)) eqn:E; simpl.
  - apply includes_elem_of in E. rewrite decide_True by done. by f_equal.
  - apply includes_false in E. by rewrite decide_False by done.
Qed.

Lemma filter_none {A : Type} (p : A -> bool) (l : list A) :
  Forall (fun x => p x = false) l -> List.filter p l = [].
Proof. induction 1 as [|x xs Hx _ IH]; simpl; [done|]. by rewrite Hx. Qed.

Lemma filter_iff_elem_of {A : Type} (P Q : A -> Prop)
    `{!forall x, Decision (P x)} `{!forall x, Decision (Q x)} (l : list A) :
  (forall x, x ∈ l -> (P x <-> Q x)) -> filter P l = filter Q l.
Proof.
  induction l as [|x xs IH]; intros Hl; [done|].
  rewrite !filter_cons, IH by (intros y Hy; apply Hl; by right).
  destruct (decide (P x)) as [HP|HP], (decide (Q x)) as [HQ|HQ]; try done.
  - destruct HQ. apply (Hl x); [apply list_elem_of_here | done].
  - destruct HP. apply (Hl x); [apply list_elem_of_here | done].
Qed.

Lemma map_from_lookup {A B : Type} (f : A -> nat -> B) (l : list A) (i k : nat) :
  map_from f i l !! k = (fun v => f v (i + k)%nat) <$> l !! k.
Proof.
  revert i k. induction l as [|x xs IH]; intros i k; [done|].
  destruct k as [|k]; simpl.
  - by rewrite Nat.add_0_r.
  - rewrite IH. by replace (S i + k)%nat with (i + S k)%nat by lia.
Qed.

Lemma js_map_lookup {A B : Type} (f : A -> nat -> list A -> B) (arr : list A) (k : nat) :
  js_map f arr !! k = (fun v => f v k arr) <$> arr !! k.
Proof. unfold js_map. by rewrite map_from_lookup. Qed.

(** Element [k] of the result of [computeVersionData] is the callback run
    on element [k] of the sorted copy. *)
Lemma computeVersionData_lookup (b : Benchmark.t) (vs : list BenchmarkVersion.t) (k : nat) :
  Benchmark.versions b = Some vs ->
  computeVersionData (Some b) !! k
  = (fun v => versionDataOf (Benchmark.runs b) v k (js_sort byVersionDesc vs))
      <$> js_sort byVersionDesc vs !! k.
Proof.
  intros Hvs. unfold computeVersionData. rewrite Hvs.
  destruct vs as [|v vs']; [done|].
  change (length (v :: vs') =? 0)%nat with false. cbv iota.
  apply js_map_lookup.
Qed.

Lemma computeVersionData_nil_lookup (benchmark : option Benchmark.t) (k : nat) :
  (benchmark = None \/ exists b, benchmark = Some b /\ Benchmark.versions b = None) ->
  computeVersionData benchmark !! k = None.
Proof.
  intros [-> | (b & -> & Hb)]; unfold computeVersionData; [done|]. by rewrite Hb.
Qed.

(* ===================================================================== *)
(** ** VersionDiffEngine: diffs between adjacent versions *)
(* ===================================================================== *)

(** C1.  For every benchmark and every position [i] of the result of
    [computeVersionData] holding [new]: when the next position holds [old],
    [new.added] is the elements of [new.testCaseIds] that are not in
    [old.testCaseIds], in the order of [new.testCaseIds], and [new.removed]
    is the elements of [old.testCaseIds] that are not in [new.testCaseIds],
    in the order of [old.testCaseIds]; when there is no next position
    ([new] is the oldest version), [added] and [removed] are empty. *)
Theorem computeVersionData_added_removed
    (benchmark : option Benchmark.t) (i : nat) (new : VersionData.t) :
  computeVersionData benchmark !! i = Some new ->
  match computeVersionData benchmark !! S i with
  | Some old =>
      VersionData.added new
      = filter (fun id => id ∉ VersionData.testCaseIds old) (VersionData.testCaseIds new)
      /\ VersionData.removed new
         = filter (fun id => id ∉ VersionData.testCaseIds new) (VersionData.testCaseIds old)
  | None => VersionData.added new = [] /\ VersionData.removed new = []
  end.
Proof.
  destruct benchmark as [b|]; [|done].
  destruct (Benchmark.versions b) as [vs|] eqn:Hvs.
  2:{ rewrite computeVersionData_nil_lookup by eauto. done. }
  rewrite !(computeVersionData_lookup b vs) by done.
  set (arr := js_sort byVersionDesc vs).
  destruct (arr !! i) as [v|] eqn:Hi; [|done].
  simpl. intros [= <-].
  unfold versionDataOf. replace (i + 1)%nat with (S i) by lia.
  destruct (arr !! S i) as [p|] eqn:Hp; simpl; [|done].
  replace (S i + 1)%nat with (S (S i)) by lia.
  by rewrite !filter_not_included.
Qed.

(* ===================================================================== *)
(** ** Sorting *)
(* ===================================================================== *)

Section Sorting.

Context {A : Type}.

Lemma sort_insert_perm (cmp : A -> A -> Z) (x : A) (l : list A) :
  sort_insert cmp x l ≡ₚ x :: l.
Proof.
  induction l as [|y ys IH]; simpl; [done|].
  destruct (cmp x y <=? 0); [done|].
  rewrite IH. apply perm_swap.
Qed.

Lemma js_sort_perm (cmp : A -> A -> Z) (l : list A) : js_sort cmp l ≡ₚ l.
Proof.
  induction l as [|x xs IH]; simpl; [done|].
  rewrite sort_insert_perm. by rewrite IH.
Qed.

Lemma js_sort_length (cmp : A -> A -> Z) (l : list A) :
  length (js_sort cmp l) = length l.
Proof. apply Permutation_length, js_sort_perm. Qed.

(** Comparators of the form [(a, b) => key(b) - key(a)] sort by [key],
    descending. *)
Variable key : A -> Z.

Lemma sort_insert_sorted (x : A) (l : list A) :
  StronglySorted (fun a b => key b <= key a) l ->
  StronglySorted (fun a b => key b <= key a)
                 (sort_insert (fun a b => key b - key a) x l).
Proof.
  induction 1 as [|y ys Hys IH Hy]; simpl.
  - constructor; constructor.
  - destruct (Z.leb_spec (key y - key x) 0) as [Hle|Hgt].
    + constructor; [by constructor|].
      constructor; [lia|].
      eapply Forall_impl; [exact Hy|]. simpl. intros z Hz. lia.
    + constructor; [exact IH|].
      rewrite sort_insert_perm. constructor; [lia | exact Hy].
Qed.

Lemma js_sort_sorted (l : list A) :
  StronglySorted (fun a b => key b <= key a) (js_sort (fun a b => key b - key a) l).
Proof.
  induction l as [|x xs IH]; simpl; [constructor | by apply sort_insert_sorted].
Qed.

(** Stability: elements with equal keys keep their order. *)
Lemma sort_insert_stable (k : Z) (x : A) (l : list A) :
  StronglySorted (fun a b => key b <= key a) l ->
  List.filter (fun a => key a =? k) (sort_insert (fun a b => key b - key a) x l)
  = List.filter (fun a => key a =? k) (x :: l).
Proof.
  induction 1 as [|y ys Hys IH Hy]; [done|].
  cbn [sort_insert].
  destruct (Z.leb_spec (key y - key x) 0) as [Hle|Hgt]; [done|].
  cbn [List.filter] in *. rewrite IH.
  destruct (Z.eqb_spec (key x) k), (Z.eqb_spec (key y) k); try done. lia.
Qed.

Lemma js_sort_stable (k : Z) (l : list A) :
  List.filter (fun a => key a =? k) (js_sort (fun a b => key b - key a) l)
  = List.filter (fun a => key a =? k) l.
Proof.
  induction l as [|x xs IH]; [done|].
  cbn [js_sort]. rewrite sort_insert_stable by apply js_sort_sorted.
  cbn [List.filter]. by rewrite IH.
Qed.

(** Distinct keys make the descending order strict. *)
Lemma sorted_keys_strict (l : list A) :
  StronglySorted (fun a b => key b <= key a) l -> NoDup (map key l) ->
  StronglySorted Z.gt (map key l).
Proof.
  induction 1 as [|x xs Hxs IH Hx]; simpl; [constructor|].
  rewrite NoDup_cons. intros [Hnotin Hnd].
  constructor; [by apply IH|].
  apply Forall_forall. intros k Hk.
  apply list_elem_of_fmap in Hk as (y & -> & Hy).
  rewrite Forall_forall in Hx. specialize (Hx y Hy). simpl in Hx.
  assert (key y <> key x).
  { intros Heq. apply Hnotin. rewrite <- Heq. apply list_elem_of_fmap. eauto. }
  lia.
Qed.

Lemma filter_key_elem (k : Z) (x : A) (l l' : list A) :
  List.filter (fun a => key a =? k) l = x :: l' -> x ∈ l /\ key x = k.
Proof.
  intros H.
  assert (Hx : In x (List.filter (fun a => key a =? k) l)) by (rewrite H; by left).
  apply filter_In in Hx as [Hin Hk]. split; [by apply list_elem_of_In | by apply Z.eqb_eq].
Qed.

(** A list sorted by [key], descending, is determined by the order in which
    it holds the elements of each key: there is one stable sorted
    arrangement of an array. *)
Lemma stable_sorted_unique (l1 l2 : list A) :
  StronglySorted (fun a b => key b <= key a) l1 ->
  StronglySorted (fun a b => key b <= key a) l2 ->
  (forall k, List.filter (fun a => key a =? k) l1 = List.filter (fun a => key a =? k) l2) ->
  l1 = l2.
Proof.
  intros H1. revert l2. induction H1 as [|x xs Hxs IH Hx]; intros l2 H2 Heq.
  - destruct l2 as [|y ys]; [done|].
    specialize (Heq (key y)). simpl in Heq. by rewrite Z.eqb_refl in Heq.
  - destruct H2 as [|y ys Hys Hy].
    { specialize (Heq (key x)). simpl in Heq. by rewrite Z.eqb_refl in Heq. }
    assert (Hkey : key x = key y).
    { pose proof (Heq (key x)) as Ex. pose proof (Heq (key y)) as Ey.
      cbn [List.filter] in Ex, Ey. rewrite Z.eqb_refl in Ex, Ey.
      destruct (Z.eqb_spec (key y) (key x)) as [|Hne]; [done|].
      destruct (Z.eqb_spec (key x) (key y)) as [|_]; [done|].
      symmetry in Ex. apply filter_key_elem in Ex as [Hxin _].
      apply filter_key_elem in Ey as [Hyin _].
      rewrite Forall_forall in Hx, Hy.
      specialize (Hx _ Hyin). specialize (Hy _ Hxin). simpl in *. lia. }
    pose proof (Heq (key x)) as Ex. cbn [List.filter] in Ex.
    rewrite <- Hkey, Z.eqb_refl in Ex. injection Ex as <- Etail.
    f_equal. apply IH; [done|]. intros k. specialize (Heq k).
    cbn [List.filter] in Heq. destruct (key x =? k); [by injection Heq|done].
Qed.

(** [js_sort] returns the array the specification of
    [Array.prototype.sort] asks for. *)
Lemma js_sort_unique (l sorted : list A) :
  StronglySorted (fun a b => key b <= key a) sorted ->
  (forall k, List.filter (fun a => key a =? k) sorted = List.filter (fun a => key a =? k) l) ->
  sorted = js_sort (fun a b => key b - key a) l.
Proof.
  intros Hs Hst. apply stable_sorted_unique; [done | apply js_sort_sorted |].
  intros k. by rewrite js_sort_stable.
Qed.
End Sorting.

(** The examples of section 8 of the specification. *)
Example computeVersionData_sample :
  computeVersionData (Some Sample.benchmark) = [Sample.d3; Sample.d2; Sample.d1].
Proof. reflexivity. Qed.

Example filterRunsByVersion_sample :
  filterRunsByVersion Sample.getTime (Some Sample.runs) (Version 1)
  = [Sample.r3; Sample.r1].
Proof. reflexivity. Qed.

Lemma computeVersionData_added_removed_witness :
  VersionData.added Sample.d3 = ["c"%string] /\ VersionData.removed Sample.d3 = [].
Proof.
  exact (computeVersionData_added_removed (Some Sample.benchmark) 0 Sample.d3 eq_refl).
Defined.

(* ===================================================================== *)
(** ** VersionDiffEngine: order and latest version *)
(* ===================================================================== *)

Lemma map_from_version (runs : option (list BenchmarkRun.t))
    (arr l : list BenchmarkVersion.t) (i : nat) :
  map VersionData.version (map_from (fun v k => versionDataOf runs v k arr) i l)
  = map BenchmarkVersion.version l.
Proof. revert i. induction l as [|x xs IH]; intros i; simpl; [done|]. by rewrite IH. Qed.

Lemma map_from_not_latest (runs : option (list BenchmarkRun.t))
    (arr l : list BenchmarkVersion.t) (i : nat) :
  Forall (fun d => VersionData.isLatest d = false)
         (map_from (fun v k => versionDataOf runs v k arr) (S i) l).
Proof.
  revert i. induction l as [|x xs IH]; intros i; simpl; constructor; [done | apply IH].
Qed.

Lemma computeVersionData_versions (b : Benchmark.t) (vs : list BenchmarkVersion.t) :
  Benchmark.versions b = Some vs ->
  map VersionData.version (computeVersionData (Some b))
  = map BenchmarkVersion.version (js_sort byVersionDesc vs).
Proof.
  intros Hvs. unfold computeVersionData. rewrite Hvs.
  destruct vs as [|v vs']; [done|].
  change (length (v :: vs') =? 0)%nat with false. cbv iota.
  apply map_from_version.
Qed.

(** The versions of the result, for any benchmark with versions: sorted
    descending, and the version numbers are those of the input. *)
Lemma computeVersionData_descending (b : Benchmark.t) (vs : list BenchmarkVersion.t) :
  Benchmark.versions b = Some vs ->
  StronglySorted Z.ge (map VersionData.version (computeVersionData (Some b)))
  /\ map VersionData.version (computeVersionData (Some b))
     ≡ₚ map BenchmarkVersion.version vs.
Proof.
  intros Hvs. rewrite (computeVersionData_versions b vs Hvs). split.
  - pose proof (js_sort_sorted BenchmarkVersion.version vs) as Hs.
    change (fun a b => BenchmarkVersion.version b - BenchmarkVersion.version a)
      with byVersionDesc in Hs.
    induction Hs as [|x xs Hxs IH Hx]; simpl; constructor; [done|].
    apply Forall_fmap. eapply Forall_impl; [exact Hx|]. simpl. intros; lia.
  - apply fmap_Permutation, js_sort_perm.
Qed.

Lemma computeVersionData_strict_latest (b : Benchmark.t) (vs : list BenchmarkVersion.t) :
  Benchmark.versions b = Some vs ->
  NoDup (map BenchmarkVersion.version vs) ->
  StronglySorted Z.gt (map VersionData.version (computeVersionData (Some b)))
  /\ (computeVersionData (Some b) <> [] ->
      exists latest rest,
        computeVersionData (Some b) = latest :: rest
        /\ VersionData.isLatest latest = true
        /\ Forall (fun d => VersionData.isLatest d = false
                            /\ VersionData.version d < VersionData.version latest)
                  rest
        /\ length (List.filter VersionData.isLatest (computeVersionData (Some b))) = 1%nat).
Proof.
  intros Hvs Hnd.
  assert (Hstrict : StronglySorted Z.gt
                      (map VersionData.version (computeVersionData (Some b)))).
  { rewrite (computeVersionData_versions b vs Hvs).
    apply sorted_keys_strict.
    - apply (js_sort_sorted BenchmarkVersion.version).
    - assert (map BenchmarkVersion.version (js_sort byVersionDesc vs)
              ≡ₚ map BenchmarkVersion.version vs) as ->
        by apply fmap_Permutation, js_sort_perm.
      exact Hnd. }
  split; [exact Hstrict|].
  revert Hstrict. unfold computeVersionData. rewrite Hvs.
  destruct (length vs =? 0)%nat; [done|].
  unfold js_map. destruct (js_sort byVersionDesc vs) as [|x xs] eqn:Harr; [done|].
  cbn [map_from map]. intros Hstrict _.
  apply StronglySorted_inv in Hstrict as [_ Hall].
  pose proof (map_from_not_latest (Benchmark.runs b) (x :: xs) xs 0) as Hnot.
  eexists _, _. split; [reflexivity|]. split; [reflexivity|]. split.
  - rewrite Forall_forall in Hall. rewrite Forall_forall in Hnot.
    apply Forall_forall. intros d Hd. split; [by apply Hnot|].
    assert (Hlt : VersionData.version (versionDataOf (Benchmark.runs b) x 0 (x :: xs))
                  > VersionData.version d).
    { apply Hall. apply list_elem_of_fmap. eauto. }
    lia.
  - cbn [List.filter versionDataOf VersionData.isLatest Nat.eqb length]. f_equal.
    by rewrite filter_none.
Qed.

(** C2.  For every benchmark whose versions have pairwise distinct version
    numbers, each at least 1 (a bound the proof does not need), the version
    numbers of the result of [computeVersionData] are strictly descending
    and are those of the input, and a non-empty result starts with an element
    with [isLatest = true] while every other element has [isLatest = false]
    and a smaller version number: exactly one element is the latest, the one
    with the maximum version number. *)
Theorem computeVersionData_sorted_latest (benchmark : option Benchmark.t) :
  (forall b vs,
     benchmark = Some b -> Benchmark.versions b = Some vs ->
     NoDup (map BenchmarkVersion.version vs)
     /\ Forall (fun v => 1 <= BenchmarkVersion.version v) vs) ->
  StronglySorted Z.gt (map VersionData.version (computeVersionData benchmark))
  /\ (forall b vs,
        benchmark = Some b -> Benchmark.versions b = Some vs ->
        map VersionData.version (computeVersionData benchmark)
        ≡ₚ map BenchmarkVersion.version vs)
  /\ (computeVersionData benchmark <> [] ->
      exists latest rest,
        computeVersionData benchmark = latest :: rest
        /\ VersionData.isLatest latest = true
        /\ Forall (fun d => VersionData.isLatest d = false
                            /\ VersionData.version d < VersionData.version latest)
                  rest
        /\ length (List.filter VersionData.isLatest (computeVersionData benchmark)) = 1%nat).
Proof.
  intros Hdistinct.
  assert (Hperm : forall b vs,
            benchmark = Some b -> Benchmark.versions b = Some vs ->
            map VersionData.version (computeVersionData benchmark)
            ≡ₚ map BenchmarkVersion.version vs).
  { intros b vs -> Hvs. by apply computeVersionData_descending. }
  destruct benchmark as [b|].
  2:{ split; [apply SSorted_nil|]. split; [exact Hperm | done]. }
  destruct (Benchmark.versions b) as [vs|] eqn:Hvs.
  - destruct (Hdistinct b vs eq_refl Hvs) as [Hnd _].
    destruct (computeVersionData_strict_latest b vs Hvs Hnd) as [Hsorted Hlatest].
    split; [exact Hsorted|]. split; [exact Hperm | exact Hlatest].
  - assert (Hnil : computeVersionData (Some b) = [])
      by (unfold computeVersionData; by rewrite Hvs).
    rewrite Hnil. split; [constructor|]. split; [|done].
    intros b' vs [= <-] Hvs'. congruence.
Qed.

Lemma computeVersionData_sorted_latest_witness :
  StronglySorted Z.gt (map VersionData.version (computeVersionData (Some Sample.benchmark)))
  /\ length (List.filter VersionData.isLatest (computeVersionData (Some Sample.benchmark)))
     = 1%nat.
Proof.
  assert (Hnd : NoDup (map BenchmarkVersion.version Sample.versions)).
  { apply (bool_decide_unpack _). vm_compute. exact I. }
  assert (Hpos : Forall (fun v => 1 <= BenchmarkVersion.version v) Sample.versions).
  { repeat constructor; simpl; lia. }
  destruct (computeVersionData_sorted_latest (Some Sample.benchmark))
    as (Hsorted & _ & Hlatest).
  { intros b vs [= <-] [= <-]. by split. }
  split; [exact Hsorted|].
  destruct Hlatest as (latest & rest & _ & _ & _ & Hcount); [discriminate|].
  exact Hcount.
Defined.

(* ===================================================================== *)
(** ** VersionSelector *)
(* ===================================================================== *)

Lemma js_find_first {A : Type} (p : A -> bool) (pre post : list A) (x : A) :
  Forall (fun y => p y = false) pre -> p x = true ->
  js_find p (pre ++ x :: post) = Some x.
Proof.
  unfold js_find. induction 1 as [|y ys Hy _ IH]; simpl; intros Hx.
  - by rewrite Hx.
  - rewrite Hy. by apply IH.
Qed.

Lemma js_find_none {A : Type} (p : A -> bool) (l : list A) :
  Forall (fun y => p y = false) l -> js_find p l = None.
Proof.
  unfold js_find. induction 1 as [|y ys Hy _ IH]; simpl; [done|]. by rewrite Hy.
Qed.

(** C3.  [getSelectedVersionData] on an empty sequence is absent whatever
    the selection; on a non-empty sequence [d :: ds], an absent selection
    gives [d]; a selection [v] gives the first element whose version is [v]
    when there is one, and [d] when no element has version [v]. *)
Theorem getSelectedVersionData_resolve
    (d : VersionData.t) (ds : list VersionData.t) (v : Z) :
  (forall selected, getSelectedVersionData [] selected = None)
  /\ getSelectedVersionData (d :: ds) None = Some d
  /\ (forall pre x post,
        d :: ds = pre ++ x :: post ->
        Forall (fun y => VersionData.version y <> v) pre ->
        VersionData.version x = v ->
        getSelectedVersionData (d :: ds) (Some v) = Some x)
  /\ (Forall (fun y => VersionData.version y <> v) (d :: ds) ->
      getSelectedVersionData (d :: ds) (Some v) = Some d).
Proof.
  split; [done|]. split; [done|]. split.
  - intros pre x post Heq Hpre Hx.
    unfold getSelectedVersionData. change (length (d :: ds) =? 0)%nat with false.
    cbv iota. rewrite Heq, (js_find_first _ pre post x); [done| |by apply Z.eqb_eq].
    eapply Forall_impl; [exact Hpre|]. simpl. intros y Hy. by apply Z.eqb_neq.
  - intros Hnone.
    unfold getSelectedVersionData. change (length (d :: ds) =? 0)%nat with false.
    cbv iota. rewrite js_find_none; [done|].
    eapply Forall_impl; [exact Hnone|]. simpl. intros y Hy. by apply Z.eqb_neq.
Qed.

Lemma getSelectedVersionData_resolve_witness :
  getSelectedVersionData [Sample.d3; Sample.d2; Sample.d1] (Some 1) = Some Sample.d1
  /\ getSelectedVersionData [Sample.d3; Sample.d2; Sample.d1] (Some 99) = Some Sample.d3.
Proof.
  split.
  - destruct (getSelectedVersionData_resolve Sample.d3 [Sample.d2; Sample.d1] 1)
      as (_ & _ & Hfirst & _).
    apply (Hfirst [Sample.d3; Sample.d2] Sample.d1 []).
    + reflexivity.
    + repeat constructor; simpl; lia.
    + reflexivity.
  - destruct (getSelectedVersionData_resolve Sample.d3 [Sample.d2; Sample.d1] 99)
      as (_ & _ & _ & Hfallback).
    apply Hfallback. repeat constructor; simpl; lia.
Defined.

(* ===================================================================== *)
(** ** TestCaseProjector *)
(* ===================================================================== *)

(** C6.  [getVersionTestCases] with no version data is empty; with version
    data [vd] it is the test cases whose id is a member of [vd.testCaseIds],
    in the order of [testCases] (a subsequence of [testCases]); and ids of
    [testCaseIds] that no test case carries change nothing: adding such ids
    to the version data gives the same result. *)
Theorem getVersionTestCases_project (testCases : list TestCase.t) (vd : VersionData.t) :
  getVersionTestCases testCases None = []
  /\ getVersionTestCases testCases (Some vd)
     = filter (fun tc => TestCase.id tc ∈ VersionData.testCaseIds vd) testCases
  /\ sublist (getVersionTestCases testCases (Some vd)) testCases
  /\ (forall (vd' : VersionData.t) (dangling : list string),
        VersionData.testCaseIds vd' ≡ₚ VersionData.testCaseIds vd ++ dangling ->
        Forall (fun id => forall tc, tc ∈ testCases -> TestCase.id tc <> id) dangling ->
        getVersionTestCases testCases (Some vd')
        = getVersionTestCases testCases (Some vd)).
Proof.
  assert (Hfilter : forall d, getVersionTestCases testCases (Some d)
            = filter (fun tc => TestCase.id tc ∈ VersionData.testCaseIds d) testCases).
  { intros d. unfold getVersionTestCases. apply filter_included. }
  split; [done|]. split; [apply Hfilter|]. split.
  - rewrite Hfilter. apply sublist_filter.
  - intros vd' dangling Hids Hdangling. rewrite !Hfilter.
    apply filter_iff_elem_of. intros tc Htc.
    rewrite Hids, elem_of_app. split; [|tauto].
    intros [Hin|Hin]; [done|].
    rewrite Forall_forall in Hdangling. by destruct (Hdangling _ Hin tc Htc).
Qed.

Lemma getVersionTestCases_project_witness :
  getVersionTestCases [Sample.tcA; Sample.tcB; Sample.tcC]
    (Some (VersionData.mk 1 "2026-01-01T00:00:00Z"
             ["c"; "x"; "a"]%string true [] [] 0))
  = getVersionTestCases [Sample.tcA; Sample.tcB; Sample.tcC]
      (Some (VersionData.mk 1 "2026-01-01T00:00:00Z" ["c"; "a"]%string true [] [] 0)).
Proof.
  destruct (getVersionTestCases_project [Sample.tcA; Sample.tcB; Sample.tcC]
              (VersionData.mk 1 "2026-01-01T00:00:00Z" ["c"; "a"]%string true [] [] 0))
    as (_ & _ & _ & Hdangling).
  apply (Hdangling _ ["x"%string]).
  - simpl. apply Permutation_skip, perm_swap.
  - constructor; [|constructor].
    intros tc Htc. rewrite !elem_of_cons, elem_of_nil in Htc.
    destruct Htc as [->|[->|[->|[]]]]; discriminate.
Defined.

Example getVersionTestCases_sample :
  getVersionTestCases [Sample.tcA; Sample.tcB; Sample.tcC]
    (Some (VersionData.mk 1 "2026-01-01T00:00:00Z"
             ["c"; "x"; "a"]%string true [] [] 0))
  = [Sample.tcA; Sample.tcC].
Proof. reflexivity. Qed.

(* ===================================================================== *)
(** ** Effective version of a run *)
(* ===================================================================== *)

Lemma strict_eq_Int (a : number) (n : Z) : strict_eq a (Int n) = true <-> a = Int n.
Proof.
  destruct a as [z|]; simpl; [|split; discriminate].
  rewrite Z.eqb_eq. split; congruence.
Qed.

(** The boolean test of the code against equality of effective versions. *)
Lemma filter_effectiveVersion (n : Z) (l : list BenchmarkRun.t) :
  List.filter (fun r => strict_eq (js_or (BenchmarkRun.benchmarkVersion r) (Int 1)) (Int n)) l
  = filter (fun r => effectiveVersion r = Int n) l.
Proof.
  induction l as [|r rs IH]; [done|].
  simpl. rewrite filter_cons, IH. fold (effectiveVersion r).
  destruct (strict_eq (effectiveVersion r) (Int n)) eqn:E.
  - apply strict_eq_Int in E. by rewrite decide_True.
  - rewrite decide_False; [done|]. intros H. apply strict_eq_Int in H. congruence.
Qed.

(** What [benchmarkVersion || 1] evaluates to: the version when it is an
    integer other than [0], and [1] when it is absent, [0] or [NaN]. *)
Lemma effectiveVersion_cases (r : BenchmarkRun.t) :
  effectiveVersion r
  = match BenchmarkRun.benchmarkVersion r with
    | Some (Int z) => if decide (z = 0) then Int 1 else Int z
    | Some NaN => Int 1
    | None => Int 1
    end.
Proof.
  unfold effectiveVersion, js_or, truthy.
  destruct (BenchmarkRun.benchmarkVersion r) as [[z|]|]; try done.
  destruct (Z.eqb_spec z 0); simpl; [by rewrite decide_True | by rewrite decide_False].
Qed.

Lemma effectiveVersion_falsy (r : BenchmarkRun.t) (n : number) :
  BenchmarkRun.benchmarkVersion r = Some n -> truthy n = false ->
  effectiveVersion r = Int 1.
Proof. intros Hr Hn. unfold effectiveVersion, js_or. by rewrite Hr, Hn. Qed.

(* ===================================================================== *)
(** ** RunFilter *)
(* ===================================================================== *)

Lemma StronglySorted_filter {A : Type} (R : A -> A -> Prop) (P : A -> Prop)
    `{!forall x, Decision (P x)} (l : list A) :
  StronglySorted R l -> StronglySorted R (filter P l).
Proof.
  induction 1 as [|x xs Hxs IH Hx]; [constructor|].
  rewrite filter_cons. destruct (decide (P x)); [|done].
  constructor; [done|].
  rewrite Forall_forall in Hx. apply Forall_forall. intros y Hy.
  apply Hx. by apply list_elem_of_filter in Hy as [_ Hy].
Qed.

Section RunFilterFacts.

Variable getTime : string -> Z.

Lemma sorted_newestFirst (runs : list BenchmarkRun.t) :
  newestFirst getTime (js_sort (byCreatedAtDesc getTime) runs).
Proof.
  apply (js_sort_sorted (fun r => getTime (BenchmarkRun.createdAt r))).
Qed.

Lemma filterRunsByVersion_all (runs : list BenchmarkRun.t) :
  filterRunsByVersion getTime (Some runs) All = js_sort (byCreatedAtDesc getTime) runs.
Proof. reflexivity. Qed.

Lemma filterRunsByVersion_version (runs : list BenchmarkRun.t) (n : Z) :
  filterRunsByVersion getTime (Some runs) (Version n)
  = filter (fun r => effectiveVersion r = Int n)
           (js_sort (byCreatedAtDesc getTime) runs).
Proof. unfold filterRunsByVersion. apply filter_effectiveVersion. Qed.

(** C4, amended.  [filterRunsByVersion] of absent runs is empty for every
    filter; with ["all"] it returns all the runs (a permutation of them)
    sorted descending by [createdAt]; with a number [n] it returns, sorted
    descending by [createdAt], exactly the runs whose effective version is
    [n], where the effective version is [benchmarkVersion || 1]: the
    [benchmarkVersion] when it is present and not [0] or [NaN], else [1]. *)
Theorem filterRunsByVersion_sorted_filtered (runs : list BenchmarkRun.t) (n : Z) :
  (forall f, filterRunsByVersion getTime None f = [])
  /\ (filterRunsByVersion getTime (Some runs) All ≡ₚ runs
      /\ newestFirst getTime (filterRunsByVersion getTime (Some runs) All))
  /\ (filterRunsByVersion getTime (Some runs) (Version n)
        ≡ₚ filter (fun r => effectiveVersion r = Int n) runs
      /\ newestFirst getTime (filterRunsByVersion getTime (Some runs) (Version n)))
  /\ (forall r,
        effectiveVersion r
        = match BenchmarkRun.benchmarkVersion r with
          | Some (Int z) => if decide (z = 0) then Int 1 else Int z
          | Some NaN => Int 1
          | None => Int 1
          end).
Proof.
  split; [done|]. split; [|split].
  - rewrite filterRunsByVersion_all. split; [apply js_sort_perm | apply sorted_newestFirst].
  - rewrite filterRunsByVersion_version. split.
    + by rewrite js_sort_perm.
    + apply StronglySorted_filter, sorted_newestFirst.
  - apply effectiveVersion_cases.
Qed.

End RunFilterFacts.

(** C4 as stated fails: a run whose [benchmarkVersion] is present and [0] is
    returned for the filter [1], although its [benchmarkVersion] is not
    [1]. *)
Lemma filterRunsByVersion_present_zero :
  ~ (forall r,
       r ∈ filterRunsByVersion Sample.getTime (Some [Sample.r0]) (Version 1)
       <-> r ∈ [Sample.r0] /\ specEffectiveVersion r = Int 1).
Proof.
  intros H. destruct (H Sample.r0) as [Hin _].
  assert (Hr0 : Sample.r0 ∈ filterRunsByVersion Sample.getTime (Some [Sample.r0]) (Version 1)).
  { cbn. apply list_elem_of_here. }
  destruct (Hin Hr0) as [_ Heff]. discriminate Heff.
Qed.

(* ===================================================================== *)
(** ** VersionDiffEngine: run counts *)
(* ===================================================================== *)

Lemma versionDataOf_runCount (runs : option (list BenchmarkRun.t))
    (v : BenchmarkVersion.t) (i : nat) (arr : list BenchmarkVersion.t) :
  VersionData.runCount (versionDataOf runs v i arr)
  = match runs with
    | Some rs =>
        length (filter (fun r => effectiveVersion r
                                 = Int (VersionData.version (versionDataOf runs v i arr))) rs)
    | None => 0%nat
    end.
Proof.
  unfold versionDataOf; simpl. destruct runs as [rs|]; [|done].
  by rewrite filter_effectiveVersion.
Qed.

Lemma computeVersionData_elem (b : Benchmark.t) (d : VersionData.t) :
  d ∈ computeVersionData (Some b) ->
  exists vs v i,
    Benchmark.versions b = Some vs
    /\ d = versionDataOf (Benchmark.runs b) v i (js_sort byVersionDesc vs).
Proof.
  intros Hd. apply list_elem_of_lookup in Hd as [i Hi].
  destruct (Benchmark.versions b) as [vs|] eqn:Hvs.
  2:{ rewrite computeVersionData_nil_lookup in Hi by eauto. done. }
  rewrite (computeVersionData_lookup b vs) in Hi by done.
  destruct (js_sort byVersionDesc vs !! i) as [v|]; [|done].
  injection Hi as <-. eauto.
Qed.

(** C5, amended.  For every benchmark and every version [d] of the result
    of [computeVersionData], [d.runCount] is the number of runs of the
    benchmark whose effective version is [d.version], where the effective
    version is [benchmarkVersion || 1] (the [benchmarkVersion] when it is
    present and not [0] or [NaN], else [1]); with an absent run collection
    the count is [0]. *)
Theorem computeVersionData_runCount (benchmark : option Benchmark.t) (d : VersionData.t) :
  d ∈ computeVersionData benchmark ->
  VersionData.runCount d
  = match opt_chain Benchmark.runs benchmark with
    | Some rs =>
        length (filter (fun r => effectiveVersion r = Int (VersionData.version d)) rs)
    | None => 0%nat
    end.
Proof.
  destruct benchmark as [b|]; [|by intros Hd%elem_of_nil].
  intros Hd. apply computeVersionData_elem in Hd as (vs & v & i & _ & ->).
  apply versionDataOf_runCount.
Qed.

Lemma computeVersionData_runCount_witness :
  VersionData.runCount Sample.d1
  = length (filter (fun r => effectiveVersion r = Int 1) Sample.runs).
Proof.
  apply (computeVersionData_runCount (Some Sample.benchmark) Sample.d1).
  do 2 apply list_elem_of_further. apply list_elem_of_here.
Defined.

(** C5 as stated fails: with the single version 1 and a single run whose
    [benchmarkVersion] is present and [0], the run count of version 1 is [1],
    not the number of runs whose [benchmarkVersion] is [1]. *)
Lemma computeVersionData_runCount_present_zero :
  ~ (forall d,
       d ∈ computeVersionData (Some (Benchmark.mk (Some [Sample.v1]) (Some [Sample.r0]))) ->
       VersionData.runCount d
       = length (filter (fun r => specEffectiveVersion r = Int (VersionData.version d))
                        [Sample.r0])).
Proof.
  intros H.
  specialize (H (VersionData.mk 1 "2026-01-01T00:00:00Z" ["a"%string] true [] [] 1)).
  discriminate H. cbn. apply list_elem_of_here.
Qed.

(* ===================================================================== *)
(** ** The legacy default on falsy versions *)
(* ===================================================================== *)

(** C10.  A run whose [benchmarkVersion] is present but falsy ([0] or
    [NaN]) is a version 1 run for both functions: [filterRunsByVersion]
    returns it for the filter [v] exactly when [v = 1]; adding it to the runs
    of a benchmark raises the [runCount] of version 1 by one and leaves every
    other [runCount] as it was; and the two functions agree on every run:
    the [runCount] of a version is the number of runs [filterRunsByVersion]
    returns for that version. *)
Theorem falsy_benchmarkVersion_counts_as_1
    (getTime : string -> Z) (r : BenchmarkRun.t) (n : number) :
  BenchmarkRun.benchmarkVersion r = Some n ->
  truthy n = false ->
  (forall rs v,
     r ∈ filterRunsByVersion getTime (Some rs) (Version v) <-> r ∈ rs /\ v = 1)
  /\ (forall versions rs i d d',
        computeVersionData (Some (Benchmark.mk versions (Some rs))) !! i = Some d ->
        computeVersionData (Some (Benchmark.mk versions (Some (r :: rs)))) !! i = Some d' ->
        VersionData.version d' = VersionData.version d
        /\ VersionData.runCount d'
           = (VersionData.runCount d
              + (if decide (VersionData.version d = 1%Z) then 1 else 0))%nat)
  /\ (forall b rs d,
        Benchmark.runs b = Some rs ->
        d ∈ computeVersionData (Some b) ->
        VersionData.runCount d
        = length (filterRunsByVersion getTime (Some rs) (Version (VersionData.version d)))).
Proof.
  intros Hr Hn. pose proof (effectiveVersion_falsy r n Hr Hn) as Heff.
  split; [|split].
  - intros rs v. rewrite filterRunsByVersion_version, list_elem_of_filter, Heff.
    rewrite js_sort_perm. split; intros [H1 H2]; split; congruence.
  - intros versions rs i d d' Hd Hd'.
    destruct versions as [vs|].
    2:{ rewrite computeVersionData_nil_lookup in Hd by eauto. done. }
    rewrite (computeVersionData_lookup _ vs) in Hd by done.
    rewrite (computeVersionData_lookup _ vs) in Hd' by done.
    cbn [Benchmark.runs] in Hd, Hd'.
    destruct (js_sort byVersionDesc vs !! i) as [v|]; [|done].
    injection Hd as <-. injection Hd' as <-.
    split; [done|].
    rewrite !versionDataOf_runCount. cbn [Benchmark.runs].
    rewrite filter_cons, Heff.
    change (VersionData.version (versionDataOf _ v i _))
      with (BenchmarkVersion.version v).
    destruct (decide (BenchmarkVersion.version v = 1)) as [->|Hne].
    + rewrite decide_True by done. simpl. lia.
    + rewrite decide_False by congruence. lia.
  - intros b rs d Hrs Hd.
    apply computeVersionData_elem in Hd as (vs & v & i & _ & ->).
    rewrite versionDataOf_runCount, Hrs, filterRunsByVersion_version.
    apply Permutation_length, filter_Permutation. symmetry. apply js_sort_perm.
Qed.

Lemma falsy_benchmarkVersion_counts_as_1_witness :
  Sample.r0 ∈ filterRunsByVersion Sample.getTime (Some (Sample.r0 :: Sample.runs)) (Version 1)
  /\ (BenchmarkRun.mk "rn" "2026-01-04T01:00:00Z" (Some NaN)
        ∈ filterRunsByVersion Sample.getTime
            (Some [BenchmarkRun.mk "rn" "2026-01-04T01:00:00Z" (Some NaN)]) (Version 2)
      <-> BenchmarkRun.mk "rn" "2026-01-04T01:00:00Z" (Some NaN)
            ∈ [BenchmarkRun.mk "rn" "2026-01-04T01:00:00Z" (Some NaN)]
          /\ 2 = 1).
Proof.
  split.
  - destruct (falsy_benchmarkVersion_counts_as_1 Sample.getTime Sample.r0 (Int 0)
                eq_refl eq_refl) as (Hfilter & _ & _).
    apply Hfilter. split; [apply list_elem_of_here | reflexivity].
  - destruct (falsy_benchmarkVersion_counts_as_1 Sample.getTime
                (BenchmarkRun.mk "rn" "2026-01-04T01:00:00Z" (Some NaN)) NaN
                eq_refl eq_refl) as (Hfilter & _ & _).
    apply Hfilter.
Defined.

Example runCount_falsy_sample :
  map VersionData.runCount
      (computeVersionData
         (Some (Benchmark.mk (Some Sample.versions) (Some (Sample.r0 :: Sample.runs)))))
  = [0; 1; 3]%nat.
Proof. reflexivity. Qed.

(* ===================================================================== *)
(** ** Operational model: programs that preserve the heap *)
(* ===================================================================== *)

Lemma unchanged_refl (h : heap) : unchanged h h.
Proof. by split. Qed.

Lemma unchanged_trans (h1 h2 h3 : heap) :
  unchanged h1 h2 -> unchanged h2 h3 -> unchanged h1 h3.
Proof. intros [Hv1 Hr1] [Hv2 Hr2]. split; eauto. Qed.

Lemma unchanged_insert_versions (h0 h : heap) (l : loc) (a : list BenchmarkVersion.t) :
  unchanged h0 h -> versionArrays h0 !! l = None ->
  unchanged h0 (mkHeap (<[l := a]> (versionArrays h)) (runArrays h)).
Proof.
  intros [Hv Hr] Hl. split; [|done]. simpl. intros l' a' Hl'.
  rewrite lookup_insert_ne by congruence. by apply Hv.
Qed.

Lemma unchanged_insert_runs (h0 h : heap) (l : loc) (a : list BenchmarkRun.t) :
  unchanged h0 h -> runArrays h0 !! l = None ->
  unchanged h0 (mkHeap (versionArrays h) (<[l := a]> (runArrays h))).
Proof.
  intros [Hv Hr] Hl. split; [done|]. simpl. intros l' a' Hl'.
  rewrite lookup_insert_ne by congruence. by apply Hr.
Qed.

Lemma fresh_versions (h : heap) : versionArrays h !! fresh (dom (versionArrays h)) = None.
Proof. apply not_elem_of_dom, is_fresh. Qed.

Lemma fresh_runs (h : heap) : runArrays h !! fresh (dom (runArrays h)) = None.
Proof. apply not_elem_of_dom, is_fresh. Qed.

Lemma preserves_ret {A : Type} (a : A) : preserves (ret a).
Proof. intros h. apply unchanged_refl. Qed.

Lemma preserves_throw {A : Type} (e : exn) : preserves (throw (A := A) e).
Proof. intros h. apply unchanged_refl. Qed.

Lemma preserves_bind {A B : Type} (m : Prog heap A) (k : A -> Prog heap B) :
  preserves m -> (forall a, preserves (k a)) -> preserves (bind m k).
Proof.
  intros Hm Hk h. unfold bind. specialize (Hm h).
  destruct (m h) as [h1 [a|e]]; simpl in *; [|done].
  eapply unchanged_trans; [exact Hm | apply Hk].
Qed.

Lemma preserves_prop {O A : Type} (f : O -> A) (o : option O) :
  preserves (prop (S := heap) f o).
Proof. destruct o; [apply preserves_ret | apply preserves_throw]. Qed.

Lemma preserves_mapM_from {A B : Type} (f : A -> nat -> Prog heap B)
    (l : list A) (i : nat) :
  (forall x k, preserves (f x k)) -> preserves (mapM_from f i l).
Proof.
  intros Hf. revert i. induction l as [|x xs IH]; intros i; simpl.
  - apply preserves_ret.
  - apply preserves_bind; [apply Hf|]. intros y.
    apply preserves_bind; [apply IH|]. intros ys. apply preserves_ret.
Qed.

Lemma preserves_filterM {A : Type} (p : A -> Prog heap bool) (l : list A) :
  (forall x, preserves (p x)) -> preserves (filterM p l).
Proof.
  intros Hp. induction l as [|x xs IH]; simpl.
  - apply preserves_ret.
  - apply preserves_bind; [apply Hp|]. intros keep.
    apply preserves_bind; [apply IH|]. intros ys. apply preserves_ret.
Qed.

Lemma preserves_read_versions (r : option loc) : preserves (Arr.read_versions r).
Proof.
  intros h. unfold Arr.read_versions.
  destruct r as [l|]; [destruct (versionArrays h !! l)|]; apply unchanged_refl.
Qed.

Lemma preserves_read_runs (r : option loc) : preserves (Arr.read_runs r).
Proof.
  intros h. unfold Arr.read_runs.
  destruct r as [l|]; [destruct (runArrays h !! l)|]; apply unchanged_refl.
Qed.

Lemma preserves_alloc_versions (a : list BenchmarkVersion.t) :
  preserves (Arr.alloc_versions a).
Proof.
  intros h. apply unchanged_insert_versions; [apply unchanged_refl | apply fresh_versions].
Qed.

Lemma preserves_alloc_runs (a : list BenchmarkRun.t) : preserves (Arr.alloc_runs a).
Proof.
  intros h. apply unchanged_insert_runs; [apply unchanged_refl | apply fresh_runs].
Qed.

Lemma preserves_filter_runs (p : BenchmarkRun.t -> bool) (l : loc) :
  preserves (Arr.filter_runs p l).
Proof.
  apply preserves_bind; [apply preserves_read_runs|]. intros a. apply preserves_alloc_runs.
Qed.

Lemma preserves_length_runs (l : loc) : preserves (Arr.length_runs l).
Proof.
  apply preserves_bind; [apply preserves_read_runs|]. intros a. apply preserves_ret.
Qed.

Lemma preserves_length_versions (r : option loc) : preserves (Arr.length_versions r).
Proof.
  apply preserves_bind; [apply preserves_read_versions|]. intros a. apply preserves_ret.
Qed.

(** [sort] overwrites its array; on a fresh copy this leaves every array
    that was there before the copy unchanged. *)
Lemma preserves_sort_copy_versions {B : Type}
    (cmp : BenchmarkVersion.t -> BenchmarkVersion.t -> Z) (r : option loc)
    (k : loc -> Prog heap B) :
  (forall l, preserves (k l)) ->
  preserves (let* copy := Arr.slice_versions r in
             let* sorted := Arr.sort_versions cmp copy in
             k sorted).
Proof.
  intros Hk h. unfold bind at 1. unfold Arr.slice_versions, bind at 1.
  pose proof (preserves_read_versions r h) as Hread.
  destruct (Arr.read_versions r h) as [h1 [a|e]] eqn:Hr; simpl in Hread; [|done].
  assert (h1 = h) as ->.
  { unfold Arr.read_versions in Hr. destruct r as [l|]; [|by inversion Hr].
    destruct (versionArrays h !! l); by inversion Hr. }
  unfold Arr.alloc_versions. set (l := fresh (dom (versionArrays h))).
  unfold bind, Arr.sort_versions, bind, Arr.read_versions. cbn [versionArrays].
  rewrite lookup_insert_eq. unfold Arr.write_versions, ret. cbn [versionArrays runArrays].
  rewrite insert_insert_eq.
  eapply unchanged_trans; [|apply Hk].
  apply unchanged_insert_versions; [apply unchanged_refl | apply fresh_versions].
Qed.

Lemma preserves_sort_copy_runs {B : Type}
    (cmp : BenchmarkRun.t -> BenchmarkRun.t -> Z) (r : option loc)
    (k : loc -> Prog heap B) :
  (forall l, preserves (k l)) ->
  preserves (let* copy := Arr.spread_runs r in
             let* sorted := Arr.sort_runs cmp copy in
             k sorted).
Proof.
  intros Hk h. unfold bind at 1. unfold Arr.spread_runs, bind at 1.
  pose proof (preserves_read_runs r h) as Hread.
  destruct (Arr.read_runs r h) as [h1 [a|e]] eqn:Hr; simpl in Hread; [|done].
  assert (h1 = h) as ->.
  { unfold Arr.read_runs in Hr. destruct r as [l|]; [|by inversion Hr].
    destruct (runArrays h !! l); by inversion Hr. }
  unfold Arr.alloc_runs. set (l := fresh (dom (runArrays h))).
  unfold bind, Arr.sort_runs, bind, Arr.read_runs. cbn [runArrays].
  rewrite lookup_insert_eq. unfold Arr.write_runs, ret. cbn [versionArrays runArrays].
  rewrite insert_insert_eq.
  eapply unchanged_trans; [|apply Hk].
  apply unchanged_insert_runs; [apply unchanged_refl | apply fresh_runs].
Qed.

Lemma preserves_versionDataOf (benchmark : option BenchmarkObj.t)
    (v : BenchmarkVersion.t) (index : nat) (arr : loc) :
  preserves (Op.versionDataOf benchmark v index arr).
Proof.
  unfold Op.versionDataOf.
  apply preserves_bind; [apply preserves_read_versions|]. intros a.
  apply preserves_bind.
  { destruct (defined (a !! (index + 1)%nat)); [|apply preserves_ret].
    apply preserves_filterM. intros id.
    apply preserves_bind; [apply preserves_prop|]. intros; apply preserves_ret. }
  intros added. apply preserves_bind.
  { destruct (defined (a !! (index + 1)%nat)); [|apply preserves_ret].
    apply preserves_bind; [apply preserves_prop|]. intros; apply preserves_ret. }
  intros removed. apply preserves_bind; [apply preserves_prop|]. intros runs.
  apply preserves_bind; [|intros; apply preserves_ret].
  destruct runs as [rs|]; [|apply preserves_ret].
  apply preserves_bind; [apply preserves_filter_runs|]. intros m.
  apply preserves_length_runs.
Qed.

Lemma preserves_computeVersionData (benchmark : option BenchmarkObj.t) :
  preserves (Op.computeVersionData benchmark).
Proof.
  unfold Op.computeVersionData. apply preserves_bind.
  { destruct (negb _); [apply preserves_ret|].
    apply preserves_bind; [apply preserves_prop|]. intros vs.
    apply preserves_bind; [apply preserves_length_versions|]. intros n.
    apply preserves_ret. }
  intros [|]; [apply preserves_ret|].
  apply preserves_bind; [apply preserves_prop|]. intros vs.
  apply preserves_sort_copy_versions. intros sorted.
  apply preserves_bind; [apply preserves_read_versions|]. intros a.
  apply preserves_mapM_from. intros v index. apply preserves_versionDataOf.
Qed.

Lemma preserves_filterRunsByVersion (getTime : string -> Z) (runs : option loc)
    (f : versionFilter) :
  preserves (Op.filterRunsByVersion getTime runs f).
Proof.
  unfold Op.filterRunsByVersion.
  destruct (negb (defined runs)); [apply preserves_alloc_runs|].
  apply preserves_sort_copy_runs. intros sorted.
  destruct f as [|n]; [apply preserves_ret | apply preserves_filter_runs].
Qed.

(* ===================================================================== *)
(** ** Inputs are not mutated *)
(* ===================================================================== *)

(** [sort] itself does mutate: called on the array of the benchmark rather
    than on a copy, it would reorder it. *)
Example sort_versions_mutates :
  ~ preserves (Arr.sort_versions byVersionDesc 1%positive).
Proof.
  intros H.
  destruct (H (mkHeap {[ 1%positive := Sample.versions ]} ∅)) as [Hv _].
  specialize (Hv 1%positive Sample.versions eq_refl).
  vm_compute in Hv. discriminate Hv.
Qed.

(** C7.  Started in any heap, on any benchmark, run array and filter,
    [computeVersionData] and [filterRunsByVersion] end in a heap in which
    every array that existed before the call, the version collection and the
    run sequence of the input among them, is at the same location with the
    same elements in the same order. *)
Theorem inputs_not_mutated (getTime : string -> Z) (h : heap)
    (benchmark : option BenchmarkObj.t) (runs : option loc) (f : versionFilter) :
  unchanged h (Op.computeVersionData benchmark h).1
  /\ unchanged h (Op.filterRunsByVersion getTime runs f h).1.
Proof.
  split; [apply preserves_computeVersionData | apply preserves_filterRunsByVersion].
Qed.

(* ===================================================================== *)
(** ** Operational model: results *)
(* ===================================================================== *)

Lemma bind_Ok {St A B : Type} (m : Prog St A) (k : A -> Prog St B) (s s' : St) (a : A) :
  m s = (s', Ok a) -> bind m k s = k a s'.
Proof. intros H. unfold bind. by rewrite H. Qed.

Lemma read_versions_Ok (h : heap) (l : loc) (a : list BenchmarkVersion.t) :
  versionArrays h !! l = Some a -> Arr.read_versions (Some l) h = (h, Ok a).
Proof. intros H. unfold Arr.read_versions. by rewrite H. Qed.

Lemma read_runs_Ok (h : heap) (l : loc) (a : list BenchmarkRun.t) :
  runArrays h !! l = Some a -> Arr.read_runs (Some l) h = (h, Ok a).
Proof. intros H. unfold Arr.read_runs. by rewrite H. Qed.

(** [runs.filter(p).length]. *)
Lemma count_runs_Ok (h : heap) (l : loc) (a : list BenchmarkRun.t)
    (p : BenchmarkRun.t -> bool) :
  runArrays h !! l = Some a ->
  ((let* matching := Arr.filter_runs p l in Arr.length_runs matching) h).2
  = Ok (length (List.filter p a)).
Proof.
  intros Hl. unfold Arr.filter_runs.
  rewrite (bind_Ok _ _ h _ _ (bind_Ok _ _ h h a (read_runs_Ok h l a Hl))).
  unfold Arr.alloc_runs, Arr.length_runs.
  erewrite (bind_Ok (Arr.read_runs _)); [done|].
  apply read_runs_Ok. cbn [runArrays]. apply lookup_insert_eq.
Qed.

Lemma mapM_from_Ok {A B : Type} (hs : heap) (f : A -> nat -> Prog heap B)
    (g : A -> nat -> B) :
  (forall x i, preserves (f x i)) ->
  (forall x i h, unchanged hs h -> (f x i h).2 = Ok (g x i)) ->
  forall l i h, unchanged hs h -> (mapM_from f i l h).2 = Ok (map_from g i l).
Proof.
  intros Hpres Hf. induction l as [|x xs IH]; intros i h Hh; [done|].
  cbn [mapM_from map_from]. unfold bind at 1.
  pose proof (Hf x i h Hh) as Hx. pose proof (Hpres x i h) as Hp.
  destruct (f x i h) as [h1 r]. simpl in Hx, Hp. subst r.
  assert (Hh1 : unchanged hs h1) by (eapply unchanged_trans; eauto).
  unfold bind. specialize (IH (S i) h1 Hh1).
  destruct (mapM_from f (S i) xs h1) as [h2 r]. simpl in IH. by subst r.
Qed.

Lemma filterM_Ok {A : Type} (p : A -> Prog heap bool) (q : A -> bool) (h : heap) :
  (forall x, p x h = (h, Ok (q x))) ->
  forall l, filterM p l h = (h, Ok (List.filter q l)).
Proof.
  intros Hp. induction l as [|x xs IH]; [done|].
  cbn [filterM List.filter]. rewrite (bind_Ok _ _ _ _ _ (Hp x)).
  rewrite (bind_Ok _ _ _ _ _ IH). unfold ret. by destruct (q x).
Qed.

Lemma bind_ret {St A B : Type} (a : A) (k : A -> Prog St B) : bind (ret a) k = k a.
Proof. reflexivity. Qed.

Lemma bind_assoc {St A B C : Type} (m : Prog St A) (k1 : A -> Prog St B)
    (k2 : B -> Prog St C) (s : St) :
  bind (bind m k1) k2 s = bind m (fun x => bind (k1 x) k2) s.
Proof. unfold bind. by destruct (m s) as [s1 [a|e]]. Qed.

Lemma versionDataOf_Ok (h : heap) (b : BenchmarkObj.t) (v : BenchmarkVersion.t)
    (index : nat) (arr : loc) (a : list BenchmarkVersion.t)
    (runs : option (list BenchmarkRun.t)) :
  versionArrays h !! arr = Some a ->
  opt_chain (fun l => runArrays h !! l) (BenchmarkObj.runs b) = runs ->
  (forall l, BenchmarkObj.runs b = Some l -> is_Some (runArrays h !! l)) ->
  (Op.versionDataOf (Some b) v index arr h).2 = Ok (versionDataOf runs v index a).
Proof.
  intros Harr Hruns Hlive. unfold Op.versionDataOf.
  rewrite (bind_Ok _ _ _ _ _ (read_versions_Ok h arr a Harr)).
  unfold versionDataOf.
  assert (Hcount :
    forall k : nat -> VersionData.t,
      ((let* runCount :=
          match BenchmarkObj.runs b with
          | Some rs =>
              let* matching :=
                Arr.filter_runs
                  (fun r => strict_eq (js_or (BenchmarkRun.benchmarkVersion r) (Int 1))
                                      (Int (BenchmarkVersion.version v)))
                  rs in
              Arr.length_runs matching
          | None => ret 0%nat
          end in
        ret (k runCount)) h).2
      = Ok (k match runs with
              | Some rs =>
                  length (List.filter
                            (fun r => strict_eq (js_or (BenchmarkRun.benchmarkVersion r) (Int 1))
                                                (Int (BenchmarkVersion.version v)))
                            rs)
              | None => 0%nat
              end)).
  { intros k. destruct (BenchmarkObj.runs b) as [rl|] eqn:Hrl;
      cbn [opt_chain] in Hruns; subst runs; [|done].
    destruct (Hlive rl eq_refl) as [rs Hrs]. rewrite Hrs.
    unfold bind at 1.
    match goal with
    | |- context [Arr.filter_runs ?p rl] => pose proof (count_runs_Ok h rl rs p Hrs) as Hc
    end.
    match type of Hc with (?m h).2 = _ => destruct (m h) as [h1 r] end.
    simpl in Hc. by subst r. }
  destruct (a !! (index + 1)%nat) as [p|]; cbn [defined prop].
  - rewrite (bind_Ok _ _ _ _ _
               (filterM_Ok _ (fun id => negb (includes (BenchmarkVersion.testCaseIds p) id))
                           h (fun id => eq_refl) (BenchmarkVersion.testCaseIds v))).
    rewrite !bind_ret. apply (Hcount (fun n => VersionData.mk _ _ _ _ _ _ n)).
  - rewrite !bind_ret. apply (Hcount (fun n => VersionData.mk _ _ _ _ _ _ n)).
Qed.

Lemma slice_versions_Ok (h : heap) (l : loc) (a : list BenchmarkVersion.t) :
  versionArrays h !! l = Some a ->
  Arr.slice_versions (Some l) h
  = (mkHeap (<[fresh (dom (versionArrays h)) := a]> (versionArrays h)) (runArrays h),
     Ok (fresh (dom (versionArrays h)))).
Proof.
  intros H. unfold Arr.slice_versions.
  by rewrite (bind_Ok _ _ _ _ _ (read_versions_Ok h l a H)).
Qed.

Lemma sort_versions_Ok (cmp : BenchmarkVersion.t -> BenchmarkVersion.t -> Z)
    (h : heap) (l : loc) (a : list BenchmarkVersion.t) :
  versionArrays h !! l = Some a ->
  Arr.sort_versions cmp l h
  = (mkHeap (<[l := js_sort cmp a]> (versionArrays h)) (runArrays h), Ok l).
Proof.
  intros H. unfold Arr.sort_versions.
  by rewrite (bind_Ok _ _ _ _ _ (read_versions_Ok h l a H)).
Qed.

Lemma spread_runs_Ok (h : heap) (l : loc) (a : list BenchmarkRun.t) :
  runArrays h !! l = Some a ->
  Arr.spread_runs (Some l) h
  = (mkHeap (versionArrays h) (<[fresh (dom (runArrays h)) := a]> (runArrays h)),
     Ok (fresh (dom (runArrays h)))).
Proof.
  intros H. unfold Arr.spread_runs.
  by rewrite (bind_Ok _ _ _ _ _ (read_runs_Ok h l a H)).
Qed.

Lemma sort_runs_Ok (cmp : BenchmarkRun.t -> BenchmarkRun.t -> Z)
    (h : heap) (l : loc) (a : list BenchmarkRun.t) :
  runArrays h !! l = Some a ->
  Arr.sort_runs cmp l h
  = (mkHeap (versionArrays h) (<[l := js_sort cmp a]> (runArrays h)), Ok l).
Proof.
  intros H. unfold Arr.sort_runs.
  by rewrite (bind_Ok _ _ _ _ _ (read_runs_Ok h l a H)).
Qed.

Lemma filter_runs_Ok (p : BenchmarkRun.t -> bool) (h : heap) (l : loc)
    (a : list BenchmarkRun.t) :
  runArrays h !! l = Some a ->
  Arr.filter_runs p l h
  = (mkHeap (versionArrays h)
            (<[fresh (dom (runArrays h)) := List.filter p a]> (runArrays h)),
     Ok (fresh (dom (runArrays h)))).
Proof.
  intros H. unfold Arr.filter_runs.
  by rewrite (bind_Ok _ _ _ _ _ (read_runs_Ok h l a H)).
Qed.

Lemma length_versions_Ok (h : heap) (l : loc) (a : list BenchmarkVersion.t) :
  versionArrays h !! l = Some a ->
  Arr.length_versions (Some l) h = (h, Ok (length a)).
Proof.
  intros H. unfold Arr.length_versions.
  by rewrite (bind_Ok _ _ _ _ _ (read_versions_Ok h l a H)).
Qed.

Lemma computeVersionData_Ok (h : heap) (benchmark : option BenchmarkObj.t) :
  live h benchmark ->
  (Op.computeVersionData benchmark h).2
  = Ok (computeVersionData (benchmarkIn h <$> benchmark)).
Proof.
  intros Hlive. destruct benchmark as [b|]; [|done].
  destruct (Hlive b eq_refl) as [Hv Hr].
  unfold Op.computeVersionData, computeVersionData.
  cbn [fmap option_fmap option_map opt_chain benchmarkIn Benchmark.versions Benchmark.runs].
  destruct (BenchmarkObj.versions b) as [l|] eqn:Hl; cbn [opt_chain defined negb prop];
    [|done].
  destruct (Hv l eq_refl) as [vs Hvs]. rewrite Hvs, !bind_ret, ?Hl.
  rewrite (bind_Ok _ _ _ _ _ (bind_Ok _ _ _ _ _ (length_versions_Ok h l vs Hvs))).
  unfold ret at 1.
  destruct (length vs =? 0)%nat eqn:Hlen; [done|].
  rewrite (bind_Ok _ _ _ _ _ (slice_versions_Ok h l vs Hvs)).
  set (c := fresh (dom (versionArrays h))).
  rewrite (bind_Ok _ _ _ _ _ (sort_versions_Ok _ _ c vs (lookup_insert_eq _ _ _))).
  cbn [versionArrays runArrays]. rewrite insert_insert_eq.
  set (hs := mkHeap _ _).
  assert (Hc : versionArrays hs !! c = Some (js_sort byVersionDesc vs))
    by apply lookup_insert_eq.
  assert (Hh : unchanged h hs).
  { apply unchanged_insert_versions; [apply unchanged_refl | apply fresh_versions]. }
  rewrite (bind_Ok _ _ _ _ _ (read_versions_Ok hs c _ Hc)).
  apply (mapM_from_Ok hs); [intros; apply preserves_versionDataOf | | apply unchanged_refl].
  intros x i h' Hh'. apply versionDataOf_Ok.
  - by apply Hh'.
  - destruct (BenchmarkObj.runs b) as [rl|]; [|done]. cbn [opt_chain].
    destruct (Hr rl eq_refl) as [rs Hrs]. rewrite Hrs. by apply Hh', Hh.
  - intros rl Hrl. destruct (Hr rl Hrl) as [rs Hrs]. exists rs. by apply Hh', Hh.
Qed.

Lemma getVersionTestCases_Ok (h : heap) (testCases : list TestCase.t)
    (selectedVersionData : option VersionData.t) :
  Op.getVersionTestCases testCases selectedVersionData h
  = (h, Ok (getVersionTestCases testCases selectedVersionData)).
Proof.
  unfold Op.getVersionTestCases, getVersionTestCases.
  destruct selectedVersionData as [vd|]; cbn [defined negb]; [|done].
  by apply filterM_Ok.
Qed.

Lemma getSelectedVersionData_Ok (h : heap) (versionData : list VersionData.t)
    (selectedVersion : option Z) :
  Op.getSelectedVersionData versionData selectedVersion h
  = (h, Ok (getSelectedVersionData versionData selectedVersion)).
Proof.
  unfold Op.getSelectedVersionData, getSelectedVersionData.
  destruct (length versionData =? 0)%nat; [done|].
  destruct selectedVersion as [sel|]; [|done].
  by destruct (js_find _ versionData).
Qed.

Lemma filterRunsByVersion_Ok (getTime : string -> Z) (h : heap) (runs : option loc)
    (f : versionFilter) :
  (forall l, runs = Some l -> is_Some (runArrays h !! l)) ->
  exists h' l',
    Op.filterRunsByVersion getTime runs f h = (h', Ok l')
    /\ runArrays h' !! l'
       = Some (filterRunsByVersion getTime (opt_chain (fun l => runArrays h !! l) runs) f).
Proof.
  intros Hlive. unfold Op.filterRunsByVersion, filterRunsByVersion.
  destruct runs as [l|]; cbn [defined negb opt_chain].
  2:{ eexists _, _. split; [reflexivity|]. cbn [runArrays]. apply lookup_insert_eq. }
  destruct (Hlive l eq_refl) as [rs Hrs]. rewrite Hrs.
  rewrite (bind_Ok _ _ _ _ _ (spread_runs_Ok h l rs Hrs)).
  set (c := fresh (dom (runArrays h))).
  rewrite (bind_Ok _ _ _ _ _ (sort_runs_Ok _ _ c rs (lookup_insert_eq _ _ _))).
  cbn [versionArrays runArrays]. rewrite insert_insert_eq.
  set (hs := mkHeap _ _).
  assert (Hc : runArrays hs !! c = Some (js_sort (byCreatedAtDesc getTime) rs))
    by apply lookup_insert_eq.
  destruct f as [|n].
  - eexists _, _. split; [reflexivity|]. exact Hc.
  - rewrite (filter_runs_Ok _ hs c _ Hc).
    eexists _, _. split; [reflexivity|]. cbn [runArrays]. apply lookup_insert_eq.
Qed.

(* ===================================================================== *)
(** ** Totality *)
(* ===================================================================== *)

Lemma live_sample : live Sample.memory (Some Sample.benchmarkObj).
Proof.
  intros b [= <-]. split; intros l [= <-]; eexists; reflexivity.
Qed.

(** The call of the test 'should not mutate the original versions array':
    the result is sorted, the array of the benchmark is as it was. *)
Example computeVersionData_op_sample :
  (Op.computeVersionData (Some Sample.benchmarkObj) Sample.memory).2
  = Ok [Sample.d3; Sample.d2; Sample.d1]
  /\ versionArrays (Op.computeVersionData (Some Sample.benchmarkObj) Sample.memory).1
     !! 1%positive
     = Some [Sample.v1; Sample.v3; Sample.v2].
Proof. split; vm_compute; reflexivity. Qed.

(** C8.  None of the four functions throws.  In every heap in which the
    references of the input are live, [computeVersionData] and
    [filterRunsByVersion] return (the value of the pure function on the
    arrays the input denotes), and [getSelectedVersionData] and
    [getVersionTestCases] return on every input; an absent benchmark, absent
    or empty versions, an empty version sequence, absent version data and
    absent runs give the empty or absent result. *)
Theorem functions_never_throw (getTime : string -> Z) (h : heap) :
  (forall benchmark,
     live h benchmark ->
     (Op.computeVersionData benchmark h).2
     = Ok (computeVersionData (benchmarkIn h <$> benchmark)))
  /\ (forall versionData selectedVersion,
        (Op.getSelectedVersionData versionData selectedVersion h).2
        = Ok (getSelectedVersionData versionData selectedVersion))
  /\ (forall testCases selectedVersionData,
        (Op.getVersionTestCases testCases selectedVersionData h).2
        = Ok (getVersionTestCases testCases selectedVersionData))
  /\ (forall runs f,
        (forall l, runs = Some l -> is_Some (runArrays h !! l)) ->
        exists h' l',
          Op.filterRunsByVersion getTime runs f h = (h', Ok l')
          /\ runArrays h' !! l'
             = Some (filterRunsByVersion getTime
                       (opt_chain (fun l => runArrays h !! l) runs) f))
  /\ computeVersionData None = []
  /\ (forall runs, computeVersionData (Some (Benchmark.mk None runs)) = [])
  /\ (forall runs, computeVersionData (Some (Benchmark.mk (Some []) runs)) = [])
  /\ (forall selectedVersion, getSelectedVersionData [] selectedVersion = None)
  /\ (forall testCases, getVersionTestCases testCases None = [])
  /\ (forall f, filterRunsByVersion getTime None f = []).
Proof.
  split; [intros; by apply computeVersionData_Ok|].
  split; [intros; by rewrite getSelectedVersionData_Ok|].
  split; [intros; by rewrite getVersionTestCases_Ok|].
  split; [intros; by apply filterRunsByVersion_Ok|].
  repeat split.
Qed.

Lemma functions_never_throw_witness :
  (Op.computeVersionData (Some Sample.benchmarkObj) Sample.memory).2
  = Ok (computeVersionData (Some Sample.benchmark))
  /\ exists h' l',
       Op.filterRunsByVersion Sample.getTime (Some 1%positive) (Version 1) Sample.memory
       = (h', Ok l')
       /\ runArrays h' !! l' = Some [Sample.r3; Sample.r1].
Proof.
  destruct (functions_never_throw Sample.getTime Sample.memory)
    as (Hcompute & _ & _ & Hfilter & _).
  split.
  - exact (Hcompute (Some Sample.benchmarkObj) live_sample).
  - apply (Hfilter (Some 1%positive) (Version 1)).
    intros l [= <-]. eexists; reflexivity.
Defined.

(* ===================================================================== *)
(** ** The cancellation hook *)
(* ===================================================================== *)

Lemma isCancelling_unique (s : Hook.state) (r1 r2 : string) :
  Hook.isCancelling s r1 = true -> Hook.isCancelling s r2 = true -> r1 = r2.
Proof.
  unfold Hook.isCancelling. destruct (Hook.cancellingRunId s) as [r|]; [|done].
  intros H1 H2. apply String.eqb_eq in H1, H2. congruence.
Qed.

(** Everything a call of [handleCancelRun] does, by outcome of the remote
    call and of the callback. *)
Lemma handleCancelRun_run (cancelBenchmarkRun : string -> string -> result unit)
    (benchmarkId runId : string) (onSuccess : option (result unit)) (s : Hook.state) :
  Hook.handleCancelRun cancelBenchmarkRun benchmarkId runId onSuccess s
  = (Hook.mk None
       (Hook.events s
        ++ [Hook.SetCancellingRunId (Some runId);
            Hook.CancelBenchmarkRun benchmarkId runId]
        ++ match cancelBenchmarkRun benchmarkId runId, onSuccess with
           | Throw e, _ => [Hook.ConsoleError "Failed to cancel run:" e]
           | Ok _, None => []
           | Ok _, Some (Ok _) => [Hook.OnSuccess]
           | Ok _, Some (Throw e) =>
               [Hook.OnSuccess; Hook.ConsoleError "Failed to cancel run:" e]
           end
        ++ [Hook.SetCancellingRunId None]),
     Ok tt).
Proof.
  unfold Hook.handleCancelRun, bind, try_catch_finally, Hook.setCancellingRunId,
    Hook.await, Hook.emit, ret.
  cbn [Hook.cancellingRunId Hook.events].
  destruct (cancelBenchmarkRun benchmarkId runId) as [[]|e];
    [destruct onSuccess as [[[]|e]|]|];
    cbn [Hook.cancellingRunId Hook.events]; rewrite <- ?app_assoc; reflexivity.
Qed.

(** C9.  The hook tracks one run id at a time: [isCancelling] holds of at
    most one run id in any state.  A call of [handleCancelRun], whatever
    state it starts in and however the remote call and the callback settle,
    returns normally (an error of the remote call is reported with
    [console.error] and not thrown), ends with [cancellingRunId] cleared,
    writes the state cell exactly twice (the run id first, [null] last), and
    calls [onSuccess] exactly when it is given and the remote call
    succeeded, after that call. *)
Theorem handleCancelRun_cleanup (cancelBenchmarkRun : string -> string -> result unit)
    (benchmarkId runId : string) (onSuccess : option (result unit)) (s : Hook.state) :
  (forall st r1 r2,
     Hook.isCancelling st r1 = true -> Hook.isCancelling st r2 = true -> r1 = r2)
  /\ (Hook.handleCancelRun cancelBenchmarkRun benchmarkId runId onSuccess s).2 = Ok tt
  /\ Hook.cancellingRunId
       (Hook.handleCancelRun cancelBenchmarkRun benchmarkId runId onSuccess s).1 = None
  /\ (forall r,
        Hook.isCancelling
          (Hook.handleCancelRun cancelBenchmarkRun benchmarkId runId onSuccess s).1 r
        = false)
  /\ exists calls,
       Hook.events (Hook.handleCancelRun cancelBenchmarkRun benchmarkId runId onSuccess s).1
       = Hook.events s
         ++ [Hook.SetCancellingRunId (Some runId);
             Hook.CancelBenchmarkRun benchmarkId runId]
         ++ calls ++ [Hook.SetCancellingRunId None]
       /\ (forall v, Hook.SetCancellingRunId v ∉ calls)
       /\ (Hook.OnSuccess ∈ calls
           <-> cancelBenchmarkRun benchmarkId runId = Ok tt /\ onSuccess <> None)
       /\ (forall e,
             cancelBenchmarkRun benchmarkId runId = Throw e ->
             calls = [Hook.ConsoleError "Failed to cancel run:" e]).
Proof.
  split; [apply isCancelling_unique|].
  rewrite handleCancelRun_run. cbn [fst snd Hook.cancellingRunId Hook.events].
  split; [done|]. split; [done|]. split; [done|].
  eexists. split; [reflexivity|].
  destruct (cancelBenchmarkRun benchmarkId runId) as [[]|e];
    [destruct onSuccess as [[[]|e]|]|].
  all: split; [intros v; rewrite ?elem_of_cons, elem_of_nil; intuition discriminate|].
  all: split; [|intros e' [= <-] || intros e' [=]; done].
  all: rewrite ?elem_of_cons, elem_of_nil; intuition (discriminate || auto).
Qed.

Lemma handleCancelRun_cleanup_witness :
  Hook.cancellingRunId
    (Hook.handleCancelRun (fun _ _ => Throw (Rejected "network")) "bench-1" "run-1"
       (Some (Ok tt)) (Hook.mk (Some "run-0"%string) [])).1
  = None
  /\ (Hook.handleCancelRun (fun _ _ => Throw (Rejected "network")) "bench-1" "run-1"
        (Some (Ok tt)) (Hook.mk (Some "run-0"%string) [])).2
     = Ok tt.
Proof.
  destruct (handleCancelRun_cleanup (fun _ _ => Throw (Rejected "network"))
              "bench-1" "run-1" (Some (Ok tt)) (Hook.mk (Some "run-0"%string) []))
    as (_ & Hreturns & Hcleared & _).
  split; [exact Hcleared | exact Hreturns].
Defined.

Example handleCancelRun_failure_sample :
  Hook.handleCancelRun (fun _ _ => Throw (Rejected "network")) "bench-1" "run-1"
    (Some (Ok tt)) (Hook.mk None [])
  = (Hook.mk None
       [Hook.SetCancellingRunId (Some "run-1"%string);
        Hook.CancelBenchmarkRun "bench-1" "run-1";
        Hook.ConsoleError "Failed to cancel run:" (Rejected "network");
        Hook.SetCancellingRunId None],
     Ok tt).
Proof. reflexivity. Qed.

Example handleCancelRun_success_sample :
  Hook.handleCancelRun (fun _ _ => Ok tt) "bench-1" "run-1"
    (Some (Ok tt)) (Hook.mk None [])
  = (Hook.mk None
       [Hook.SetCancellingRunId (Some "run-1"%string);
        Hook.CancelBenchmarkRun "bench-1" "run-1";
        Hook.OnSuccess;
        Hook.SetCancellingRunId None],
     Ok tt).
Proof. reflexivity. Qed.

(* ===================================================================== *)
(** ** VersionDiffEngine: further properties *)
(* ===================================================================== *)

(** The diffs of two adjacent elements of the result, from the callback. *)
Lemma computeVersionData_adjacent (benchmark : option Benchmark.t) (i : nat)
    (new old : VersionData.t) :
  computeVersionData benchmark !! i = Some new ->
  computeVersionData benchmark !! S i = Some old ->
  VersionData.added new
  = filter (fun id => id ∉ VersionData.testCaseIds old) (VersionData.testCaseIds new)
  /\ VersionData.removed new
     = filter (fun id => id ∉ VersionData.testCaseIds new) (VersionData.testCaseIds old).
Proof.
  destruct benchmark as [b|]; [|done].
  destruct (Benchmark.versions b) as [vs|] eqn:Hvs.
  2:{ rewrite computeVersionData_nil_lookup by eauto. done. }
  rewrite !(computeVersionData_lookup b vs) by done.
  destruct (js_sort byVersionDesc vs !! i) as [v|] eqn:Hi; [|done].
  destruct (js_sort byVersionDesc vs !! S i) as [p|] eqn:Hp; [|done].
  simpl. intros [= <-] [= <-].
  unfold versionDataOf.
  cbn [VersionData.added VersionData.removed VersionData.testCaseIds].
  replace (i + 1)%nat with (S i) by lia. rewrite Hp.
  by rewrite !filter_not_included.
Qed.

(** X1.  The diff of an adjacent pair turns the older id set into the newer
    one, and back: an id is in the newer version exactly when it was added,
    or was in the older version and not removed; no id is both added and
    removed. *)
Theorem computeVersionData_diff_applies (benchmark : option Benchmark.t) (i : nat)
    (new old : VersionData.t) :
  computeVersionData benchmark !! i = Some new ->
  computeVersionData benchmark !! S i = Some old ->
  (forall id, id ∈ VersionData.added new -> id ∉ VersionData.removed new)
  /\ (forall id,
        id ∈ VersionData.testCaseIds new
        <-> id ∈ VersionData.added new
            \/ (id ∈ VersionData.testCaseIds old /\ id ∉ VersionData.removed new))
  /\ (forall id,
        id ∈ VersionData.testCaseIds old
        <-> id ∈ VersionData.removed new
            \/ (id ∈ VersionData.testCaseIds new /\ id ∉ VersionData.added new)).
Proof.
  intros Hnew Hold.
  destruct (computeVersionData_adjacent benchmark i new old Hnew Hold) as [-> ->].
  split; [|split]; intros id; rewrite !list_elem_of_filter.
  - tauto.
  - destruct (decide (id ∈ VersionData.testCaseIds old)),
      (decide (id ∈ VersionData.testCaseIds new)); tauto.
  - destruct (decide (id ∈ VersionData.testCaseIds old)),
      (decide (id ∈ VersionData.testCaseIds new)); tauto.
Qed.

Lemma computeVersionData_diff_applies_witness :
  "c"%string ∈ VersionData.testCaseIds Sample.d3
  <-> "c"%string ∈ VersionData.added Sample.d3
      \/ ("c"%string ∈ VersionData.testCaseIds Sample.d2
          /\ "c"%string ∉ VersionData.removed Sample.d3).
Proof.
  exact (proj1 (proj2 (computeVersionData_diff_applies
                         (Some Sample.benchmark) 0 Sample.d3 Sample.d2 eq_refl eq_refl))
               "c"%string).
Defined.

Lemma map_from_fields (runs : option (list BenchmarkRun.t))
    (arr l : list BenchmarkVersion.t) (i : nat) :
  map (fun d => BenchmarkVersion.mk (VersionData.version d) (VersionData.createdAt d)
                  (VersionData.testCaseIds d))
      (map_from (fun v k => versionDataOf runs v k arr) i l)
  = l.
Proof.
  revert i. induction l as [|[n c ids] xs IH]; intros i; simpl; [done|]. by rewrite IH.
Qed.

(** X2.  Whatever the version numbers (repeated ones included), the result has
    one entry per version, each carrying the number, timestamp and ids of
    its version; the numbers are in descending order; and the entry at
    position 0, and only that one, has [isLatest = true]. *)
Theorem computeVersionData_entries (b : Benchmark.t) (vs : list BenchmarkVersion.t) :
  Benchmark.versions b = Some vs ->
  map (fun d => BenchmarkVersion.mk (VersionData.version d) (VersionData.createdAt d)
                  (VersionData.testCaseIds d))
      (computeVersionData (Some b))
  ≡ₚ vs
  /\ length (computeVersionData (Some b)) = length vs
  /\ StronglySorted Z.ge (map VersionData.version (computeVersionData (Some b)))
  /\ (forall i d,
        computeVersionData (Some b) !! i = Some d ->
        (VersionData.isLatest d = true <-> i = 0%nat)).
Proof.
  intros Hvs.
  assert (Hfields : map (fun d => BenchmarkVersion.mk (VersionData.version d)
                                    (VersionData.createdAt d) (VersionData.testCaseIds d))
                        (computeVersionData (Some b))
                    = if (length vs =? 0)%nat then [] else js_sort byVersionDesc vs).
  { unfold computeVersionData. rewrite Hvs. destruct (length vs =? 0)%nat; [done|].
    apply map_from_fields. }
  assert (Hperm : map (fun d => BenchmarkVersion.mk (VersionData.version d)
                                  (VersionData.createdAt d) (VersionData.testCaseIds d))
                      (computeVersionData (Some b)) ≡ₚ vs).
  { rewrite Hfields. destruct vs; [done|]. apply js_sort_perm. }
  split; [exact Hperm|]. split.
  { rewrite <- (Permutation_length Hperm). by rewrite length_map. }
  split; [by apply (computeVersionData_descending b vs)|].
  intros i d. rewrite (computeVersionData_lookup b vs) by done.
  destruct (js_sort byVersionDesc vs !! i) as [v|]; [|done].
  simpl. intros [= <-]. simpl. apply Nat.eqb_eq.
Qed.

Lemma computeVersionData_entries_witness :
  length (computeVersionData (Some Sample.benchmark)) = length Sample.versions.
Proof.
  exact (proj1 (proj2 (computeVersionData_entries Sample.benchmark Sample.versions eq_refl))).
Defined.

(* ===================================================================== *)
(** ** VersionDiffEngine: independence of the storage order *)
(* ===================================================================== *)

Lemma filter_bool_Permutation {A : Type} (p : A -> bool) (l1 l2 : list A) :
  l1 ≡ₚ l2 -> List.filter p l1 ≡ₚ List.filter p l2.
Proof.
  induction 1 as [|x l1 l2 _ IH|x y l|l1 l2 l3 _ IH1 _ IH2]; simpl.
  - done.
  - destruct (p x); [by constructor | done].
  - destruct (p x), (p y); try done. apply perm_swap.
  - by etrans.
Qed.

Lemma filter_key_NoDup {A : Type} (key : A -> Z) (k : Z) (l : list A) :
  NoDup (map key l) -> (length (List.filter (fun a => (key a =? k)%Z) l) <= 1)%nat.
Proof.
  induction l as [|x xs IH]; simpl; [lia|].
  rewrite NoDup_cons. intros [Hnotin Hnd]. specialize (IH Hnd).
  destruct (Z.eqb_spec (key x) k) as [<-|]; [|done].
  simpl. rewrite filter_none; [simpl; lia|].
  apply Forall_forall. intros y Hy. apply Z.eqb_neq. intros Heq.
  apply Hnotin. rewrite <- Heq. apply list_elem_of_fmap. eauto.
Qed.

(** With pairwise distinct keys the sorted array does not depend on the
    order of the input. *)
Lemma js_sort_Permutation {A : Type} (key : A -> Z) (l1 l2 : list A) :
  l1 ≡ₚ l2 -> NoDup (map key l1) ->
  js_sort (fun a b => key b - key a) l1 = js_sort (fun a b => key b - key a) l2.
Proof.
  intros Hperm Hnd.
  apply (stable_sorted_unique key); [apply js_sort_sorted | apply js_sort_sorted |].
  intros k. rewrite !js_sort_stable.
  pose proof (filter_key_NoDup key k l1 Hnd) as Hlen.
  pose proof (filter_bool_Permutation (fun a => key a =? k) l1 l2 Hperm) as Hf.
  destruct (List.filter (fun a => key a =? k) l1) as [|x [|y ys]]; simpl in Hlen; [| |lia].
  - by apply Permutation_nil in Hf.
  - by apply Permutation_singleton_l in Hf.
Qed.

Lemma versionDataOf_runs_Permutation (rs rs' : list BenchmarkRun.t)
    (v : BenchmarkVersion.t) (i : nat) (arr : list BenchmarkVersion.t) :
  rs ≡ₚ rs' -> versionDataOf (Some rs) v i arr = versionDataOf (Some rs') v i arr.
Proof.
  intros Hperm. unfold versionDataOf. f_equal.
  by apply Permutation_length, filter_bool_Permutation.
Qed.

Lemma map_from_ext {A B : Type} (f g : A -> nat -> B) (l : list A) (i : nat) :
  (forall x k, f x k = g x k) -> map_from f i l = map_from g i l.
Proof.
  intros Hfg. revert i. induction l as [|x xs IH]; intros i; simpl; [done|].
  by rewrite Hfg, IH.
Qed.

(** X3.  The result does not depend on the order in which the benchmark stores
    its versions (when their numbers are pairwise distinct) nor on the order
    of its runs. *)
Theorem computeVersionData_order_independent
    (vs vs' : list BenchmarkVersion.t) (rs rs' : list BenchmarkRun.t) :
  vs ≡ₚ vs' ->
  NoDup (map BenchmarkVersion.version vs) ->
  rs ≡ₚ rs' ->
  computeVersionData (Some (Benchmark.mk (Some vs) (Some rs)))
  = computeVersionData (Some (Benchmark.mk (Some vs') (Some rs'))).
Proof.
  intros Hvs Hnd Hrs. unfold computeVersionData. cbn [Benchmark.versions Benchmark.runs].
  rewrite <- (Permutation_length Hvs).
  destruct (length vs =? 0)%nat; [done|].
  change byVersionDesc
    with (fun a b => BenchmarkVersion.version b - BenchmarkVersion.version a).
  rewrite <- (js_sort_Permutation BenchmarkVersion.version vs vs' Hvs Hnd).
  unfold js_map. apply map_from_ext. intros v k.
  by apply versionDataOf_runs_Permutation.
Qed.

Lemma computeVersionData_order_independent_witness :
  computeVersionData (Some Sample.benchmark)
  = computeVersionData
      (Some (Benchmark.mk (Some [Sample.v3; Sample.v2; Sample.v1])
                          (Some [Sample.r3; Sample.r2; Sample.r1]))).
Proof.
  apply (computeVersionData_order_independent Sample.versions _ Sample.runs _).
  - unfold Sample.versions.
    etrans; [apply perm_swap|]. apply Permutation_skip, perm_swap.
  - apply (bool_decide_unpack _). vm_compute. exact I.
  - unfold Sample.runs.
    etrans; [apply perm_swap|].
    etrans; [apply Permutation_skip, perm_swap|]. apply perm_swap.
Defined.

(* ===================================================================== *)
(** ** VersionDiffEngine: run counts add up *)
(* ===================================================================== *)

Lemma indicator_sum (a : number) (ks : list Z) :
  NoDup ks ->
  sum_list (map (fun k => if decide (a = Int k) then 1%nat else 0%nat) ks)
  = if decide (a ∈ map Int ks) then 1%nat else 0%nat.
Proof.
  induction ks as [|k ks IH].
  - intros _. destruct (decide (a ∈ map Int [])) as [Hin|_]; [|done].
    by apply elem_of_nil in Hin.
  - rewrite NoDup_cons. intros [Hnotin Hnd].
    change (sum_list (map (fun k0 => if decide (a = Int k0) then 1%nat else 0%nat)
                          (k :: ks)))
      with ((if decide (a = Int k) then 1%nat else 0%nat)
            + sum_list (map (fun k0 => if decide (a = Int k0) then 1%nat else 0%nat) ks))%nat.
    rewrite (IH Hnd).
    assert (Hmem : a ∈ map Int (k :: ks) <-> a = Int k \/ a ∈ map Int ks)
      by apply elem_of_cons.
    destruct (decide (a = Int k)) as [Heq|Hne].
    + subst a.
      destruct (decide (Int k ∈ map Int ks)) as [Hin|_].
      { apply list_elem_of_fmap in Hin as (k' & [= <-] & Hk'). done. }
      destruct (decide (Int k ∈ map Int (k :: ks))) as [_|Hnin]; [done|].
      destruct Hnin. apply Hmem. by left.
    + destruct (decide (a ∈ map Int ks)) as [Hin|Hnin],
               (decide (a ∈ map Int (k :: ks))) as [Hin'|Hnin'];
        try done; exfalso; tauto.
Qed.

Lemma count_sum (ks : list Z) (rs : list BenchmarkRun.t) :
  NoDup ks ->
  sum_list (map (fun k => length (filter (fun r => effectiveVersion r = Int k) rs)) ks)
  = length (filter (fun r => effectiveVersion r ∈ map Int ks) rs).
Proof.
  intros Hnd. induction rs as [|r rs IH].
  - simpl. induction ks; simpl; [done|]. apply IHks. by apply NoDup_cons in Hnd as [_ ?].
  - rewrite filter_cons.
    assert (Hsplit :
      sum_list (map (fun k => length (filter (fun r0 => effectiveVersion r0 = Int k)
                                             (r :: rs))) ks)
      = (sum_list (map (fun k => if decide (effectiveVersion r = Int k)
                                 then 1%nat else 0%nat) ks)
         + sum_list (map (fun k => length (filter (fun r0 => effectiveVersion r0 = Int k)
                                                  rs)) ks))%nat).
    { clear. induction ks as [|k ks IHk]; simpl; [done|].
      rewrite IHk, filter_cons. destruct (decide (effectiveVersion r = Int k)); simpl; lia. }
    rewrite Hsplit, IH, (indicator_sum _ ks Hnd).
    by destruct (decide (effectiveVersion r ∈ map Int ks)).
Qed.

Lemma sum_list_Permutation (l1 l2 : list nat) : l1 ≡ₚ l2 -> sum_list l1 = sum_list l2.
Proof.
  induction 1 as [|x l1 l2 _ IH|x y l|l1 l2 l3 _ IH1 _ IH2]; simpl; lia.
Qed.

Lemma map_from_runCount (rs : list BenchmarkRun.t) (arr l : list BenchmarkVersion.t)
    (i : nat) :
  map VersionData.runCount (map_from (fun v k => versionDataOf (Some rs) v k arr) i l)
  = map (fun v => length (filter (fun r => effectiveVersion r
                                           = Int (BenchmarkVersion.version v)) rs)) l.
Proof.
  revert i. induction l as [|x xs IH]; intros i; [done|].
  cbn [map_from map]. rewrite IH. f_equal.
  apply (versionDataOf_runCount (Some rs)).
Qed.

(** X4.  With pairwise distinct version numbers the run counts add up to the
    number of runs whose effective version is the number of one of the
    versions: each such run is counted once, and a run of a version the
    benchmark does not have is counted nowhere. *)
Theorem computeVersionData_runCount_total
    (vs : list BenchmarkVersion.t) (rs : list BenchmarkRun.t) :
  NoDup (map BenchmarkVersion.version vs) ->
  sum_list (map VersionData.runCount
              (computeVersionData (Some (Benchmark.mk (Some vs) (Some rs)))))
  = length (filter (fun r => effectiveVersion r
                             ∈ map Int (map BenchmarkVersion.version vs)) rs)
  /\ (sum_list (map VersionData.runCount
                  (computeVersionData (Some (Benchmark.mk (Some vs) (Some rs)))))
      <= length rs)%nat.
Proof.
  intros Hnd.
  assert (Hsum :
    sum_list (map VersionData.runCount
                (computeVersionData (Some (Benchmark.mk (Some vs) (Some rs)))))
    = length (filter (fun r => effectiveVersion r
                               ∈ map Int (map BenchmarkVersion.version vs)) rs)).
  { rewrite <- (count_sum _ rs Hnd), map_map.
    unfold computeVersionData. cbn [Benchmark.versions Benchmark.runs].
    destruct vs as [|v vs']; [done|].
    change (length (v :: vs') =? 0)%nat with false. cbv iota.
    unfold js_map. rewrite map_from_runCount.
    apply sum_list_Permutation, Permutation_map, js_sort_perm. }
  split; [exact Hsum|]. rewrite Hsum. apply length_filter.
Qed.

Lemma computeVersionData_runCount_total_witness :
  sum_list (map VersionData.runCount (computeVersionData (Some Sample.benchmark)))
  = length (filter (fun r => effectiveVersion r
                             ∈ map Int (map BenchmarkVersion.version Sample.versions))
                   Sample.runs).
Proof.
  apply (computeVersionData_runCount_total Sample.versions Sample.runs).
  apply (bool_decide_unpack _). vm_compute. exact I.
Defined.

(* ===================================================================== *)
(** ** RunFilter: further properties *)
(* ===================================================================== *)

Lemma effectiveVersion_nonzero (r : BenchmarkRun.t) :
  exists z, z <> 0 /\ effectiveVersion r = Int z.
Proof.
  rewrite effectiveVersion_cases.
  destruct (BenchmarkRun.benchmarkVersion r) as [[z|]|]; [|by exists 1..].
  destruct (decide (z = 0)); [by exists 1 | by exists z].
Qed.

(** X5.  The version filters split the runs: every run is returned for exactly
    one version number, which is never [0]; so the filter [0] returns
    nothing, even when runs carry [benchmarkVersion: 0]. *)
Theorem filterRunsByVersion_partition (getTime : string -> Z)
    (runs : list BenchmarkRun.t) :
  filterRunsByVersion getTime (Some runs) (Version 0) = []
  /\ (forall r,
        r ∈ runs ->
        exists n,
          n <> 0
          /\ forall m, r ∈ filterRunsByVersion getTime (Some runs) (Version m) <-> m = n).
Proof.
  split.
  - rewrite filterRunsByVersion_version.
    destruct (filter _ _) as [|r rest] eqn:E; [done|].
    assert (Hr : r ∈ r :: rest) by apply list_elem_of_here.
    rewrite <- E in Hr. apply list_elem_of_filter in Hr as [Heff _].
    destruct (effectiveVersion_nonzero r) as (z & Hz & Hr). congruence.
  - intros r Hr. destruct (effectiveVersion_nonzero r) as (z & Hz & Heff).
    exists z. split; [done|]. intros m.
    rewrite filterRunsByVersion_version, list_elem_of_filter, Heff, js_sort_perm.
    split; [intros [[= ->] _]; done | intros ->; done].
Qed.

Lemma filterRunsByVersion_partition_witness :
  exists n,
    n <> 0
    /\ forall m,
         Sample.r0 ∈ filterRunsByVersion Sample.getTime (Some (Sample.r0 :: Sample.runs))
                       (Version m)
         <-> m = n.
Proof.
  apply (filterRunsByVersion_partition Sample.getTime (Sample.r0 :: Sample.runs)).
  apply list_elem_of_here.
Defined.

Lemma StronglySorted_filter_bool {A : Type} (R : A -> A -> Prop) (p : A -> bool)
    (l : list A) :
  StronglySorted R l -> StronglySorted R (List.filter p l).
Proof.
  induction 1 as [|x xs Hxs IH Hx]; simpl; [constructor|].
  destruct (p x); [|done]. constructor; [done|].
  rewrite Forall_forall in Hx. apply Forall_forall. intros y Hy.
  apply Hx. apply list_elem_of_In, filter_In in Hy as [Hy _]. by apply list_elem_of_In.
Qed.

Lemma filter_bool_comm {A : Type} (p q : A -> bool) (l : list A) :
  List.filter p (List.filter q l) = List.filter q (List.filter p l).
Proof.
  induction l as [|x xs IH]; simpl; [done|].
  destruct (p x) eqn:Hp, (q x) eqn:Hq; simpl; rewrite ?Hp, ?Hq, IH; done.
Qed.

Section SortFilter.

Context {A : Type}.
Variable key : A -> Z.

(** Sorting a sorted array changes nothing. *)
Lemma js_sort_sorted_id (l : list A) :
  StronglySorted (fun a b => key b <= key a) l ->
  js_sort (fun a b => key b - key a) l = l.
Proof.
  intros Hl. apply (stable_sorted_unique key); [apply js_sort_sorted | done |].
  intros k. apply js_sort_stable.
Qed.

(** Sorting then filtering is filtering then sorting. *)
Lemma js_sort_filter (p : A -> bool) (l : list A) :
  List.filter p (js_sort (fun a b => key b - key a) l)
  = js_sort (fun a b => key b - key a) (List.filter p l).
Proof.
  apply (stable_sorted_unique key).
  - apply StronglySorted_filter_bool, js_sort_sorted.
  - apply js_sort_sorted.
  - intros k. by rewrite filter_bool_comm, !js_sort_stable, filter_bool_comm.
Qed.

End SortFilter.

(** X6.  How calls of [filterRunsByVersion] compose: filtering by a version is
    the same as sorting only the runs of that version; filtering an already
    filtered result again with the same filter changes nothing; and a version
    filter applied to the result for ["all"] gives the result for that
    version. *)
Theorem filterRunsByVersion_composes (getTime : string -> Z)
    (runs : list BenchmarkRun.t) (n : Z) (f : versionFilter) :
  filterRunsByVersion getTime (Some runs) (Version n)
  = filterRunsByVersion getTime
      (Some (filter (fun r => effectiveVersion r = Int n) runs)) All
  /\ filterRunsByVersion getTime (Some (filterRunsByVersion getTime (Some runs) f)) f
     = filterRunsByVersion getTime (Some runs) f
  /\ filterRunsByVersion getTime (Some (filterRunsByVersion getTime (Some runs) All))
       (Version n)
     = filterRunsByVersion getTime (Some runs) (Version n).
Proof.
  assert (Hid : forall l,
            newestFirst getTime l -> js_sort (byCreatedAtDesc getTime) l = l).
  { intros l. apply (js_sort_sorted_id (fun r => getTime (BenchmarkRun.createdAt r))). }
  split; [|split].
  - rewrite <- filter_effectiveVersion. unfold filterRunsByVersion.
    apply (js_sort_filter (fun r => getTime (BenchmarkRun.createdAt r))).
  - destruct f as [|m].
    + rewrite !filterRunsByVersion_all. apply Hid, sorted_newestFirst.
    + rewrite (filterRunsByVersion_version getTime (filterRunsByVersion _ _ _)).
      rewrite Hid.
      * rewrite filterRunsByVersion_version. apply list_filter_filter_l. tauto.
      * rewrite filterRunsByVersion_version.
        apply StronglySorted_filter, sorted_newestFirst.
  - rewrite (filterRunsByVersion_version getTime (filterRunsByVersion _ _ _)).
    rewrite Hid by apply sorted_newestFirst.
    by rewrite filterRunsByVersion_version.
Qed.

Lemma bind_Throw {St A B : Type} (m : Prog St A) (k : A -> Prog St B) (s s' : St)
    (e : exn) :
  m s = (s', Throw e) -> bind m k s = (s', Throw e).
Proof. intros H. unfold bind. by rewrite H. Qed.

(** X7.  The array [filterRunsByVersion] returns is always a new one: its
    location held no array before the call, so it is never the array passed
    in, not even for ["all"] or for absent runs. *)
Theorem filterRunsByVersion_returns_new_array (getTime : string -> Z) (h h' : heap)
    (runs : option loc) (f : versionFilter) (l' : loc) :
  Op.filterRunsByVersion getTime runs f h = (h', Ok l') ->
  runArrays h !! l' = None
  /\ is_Some (runArrays h' !! l')
  /\ runs <> Some l'.
Proof.
  intros Hrun.
  assert (Hnew : runArrays h !! l' = None /\ is_Some (runArrays h' !! l')).
  { revert Hrun. unfold Op.filterRunsByVersion.
    destruct runs as [l|]; cbn [defined negb].
    2:{ unfold Arr.alloc_runs. intros [= <- <-]. split; [apply fresh_runs|].
        cbn [runArrays]. rewrite lookup_insert_eq. eauto. }
    destruct (runArrays h !! l) as [rs|] eqn:Hl.
    2:{ rewrite (bind_Throw _ _ h h InvalidReference); [done|].
        unfold Arr.spread_runs. apply bind_Throw. unfold Arr.read_runs. by rewrite Hl. }
    rewrite (bind_Ok _ _ _ _ _ (spread_runs_Ok h l rs Hl)).
    set (c := fresh (dom (runArrays h))).
    rewrite (bind_Ok _ _ _ _ _ (sort_runs_Ok _ _ c rs (lookup_insert_eq _ _ _))).
    cbn [versionArrays runArrays]. rewrite insert_insert_eq.
    set (hs := mkHeap _ _).
    assert (Hc : runArrays hs !! c = Some (js_sort (byCreatedAtDesc getTime) rs))
      by apply lookup_insert_eq.
    destruct f as [|n].
    - intros [= <- <-]. split; [apply fresh_runs | eauto].
    - rewrite (filter_runs_Ok _ hs c _ Hc). intros [= <- <-]. split.
      + pose proof (fresh_runs hs) as Hfresh. cbn [runArrays hs] in Hfresh.
        apply lookup_insert_None in Hfresh as [Hfresh _]. exact Hfresh.
      + cbn [runArrays]. rewrite lookup_insert_eq. eauto. }
  destruct Hnew as [Hnone Hsome]. split; [done|]. split; [done|].
  intros ->. revert Hrun. unfold Op.filterRunsByVersion. cbn [defined negb].
  rewrite (bind_Throw _ _ h h InvalidReference); [done|].
  unfold Arr.spread_runs. apply bind_Throw. unfold Arr.read_runs. by rewrite Hnone.
Qed.

Lemma filterRunsByVersion_returns_new_array_witness :
  runArrays Sample.memory !! 2%positive = None
  /\ is_Some (runArrays (Op.filterRunsByVersion Sample.getTime (Some 1%positive) All
                           Sample.memory).1 !! 2%positive)
  /\ Some 1%positive <> Some 2%positive.
Proof.
  apply (filterRunsByVersion_returns_new_array Sample.getTime Sample.memory
           (Op.filterRunsByVersion Sample.getTime (Some 1%positive) All Sample.memory).1
           (Some 1%positive) All 2%positive).
  vm_compute. reflexivity.
Defined.

(* ===================================================================== *)
(** ** VersionSelector: further properties *)
(* ===================================================================== *)

Lemma js_find_elem {A : Type} (p : A -> bool) (l : list A) (x : A) :
  js_find p l = Some x -> x ∈ l /\ p x = true.
Proof.
  unfold js_find. intros H. apply find_some in H as [Hin Hp].
  split; [by apply list_elem_of_In | done].
Qed.

Lemma js_find_absent {A : Type} (p : A -> bool) (l : list A) :
  js_find p l = None -> forall x, x ∈ l -> p x = false.
Proof.
  unfold js_find. intros H x Hx. apply (find_none _ _ H). by apply list_elem_of_In.
Qed.

(** X8.  The selected version is always one of the given ones: the result is
    absent only for an empty sequence; otherwise it is an element of the
    sequence, and when its version is not the selected one, then no element
    has the selected version and the result is the first element. *)
Theorem getSelectedVersionData_member (versionData : list VersionData.t)
    (selectedVersion : option Z) :
  (getSelectedVersionData versionData selectedVersion = None <-> versionData = [])
  /\ (forall d,
        getSelectedVersionData versionData selectedVersion = Some d ->
        d ∈ versionData
        /\ (forall v,
              selectedVersion = Some v -> VersionData.version d <> v ->
              versionData !! 0%nat = Some d
              /\ forall x, x ∈ versionData -> VersionData.version x <> v)).
Proof.
  unfold getSelectedVersionData.
  destruct versionData as [|d0 ds].
  { split; [done|]. intros d. done. }
  change (length (d0 :: ds) =? 0)%nat with false. cbv iota.
  destruct selectedVersion as [sel|].
  - destruct (js_find _ (d0 :: ds)) as [x|] eqn:Hfind.
    + apply js_find_elem in Hfind as [Hin Hx]. apply Z.eqb_eq in Hx.
      split; [done|]. intros d [= <-]. split; [done|]. intros v [= <-]. done.
    + split; [done|]. intros d [= <-]. split; [apply list_elem_of_here|].
      intros v [= <-] _. split; [done|]. intros x Hx.
      apply Z.eqb_neq. by apply (js_find_absent _ _ Hfind).
  - split; [done|]. intros d [= <-]. split; [apply list_elem_of_here|]. done.
Qed.

Lemma getSelectedVersionData_member_witness :
  Sample.d3 ∈ [Sample.d3; Sample.d2; Sample.d1].
Proof.
  exact (proj1 (proj2 (getSelectedVersionData_member
                         [Sample.d3; Sample.d2; Sample.d1] (Some 99))
                      Sample.d3 eq_refl)).
Defined.

(** X9.  Selection on the result of [computeVersionData], for a benchmark with
    at least one version: without a selection the result is the entry with
    [isLatest = true], whose number is the largest of the benchmark; the
    number of one of the versions selects an entry with that number; any
    other number selects the latest entry. *)
Theorem getSelectedVersionData_of_computed (b : Benchmark.t)
    (vs : list BenchmarkVersion.t) :
  Benchmark.versions b = Some vs ->
  vs <> [] ->
  exists latest,
    getSelectedVersionData (computeVersionData (Some b)) None = Some latest
    /\ VersionData.isLatest latest = true
    /\ (forall v, v ∈ vs -> BenchmarkVersion.version v <= VersionData.version latest)
    /\ (forall n,
          n ∈ map BenchmarkVersion.version vs ->
          exists d,
            getSelectedVersionData (computeVersionData (Some b)) (Some n) = Some d
            /\ VersionData.version d = n)
    /\ (forall n,
          n ∉ map BenchmarkVersion.version vs ->
          getSelectedVersionData (computeVersionData (Some b)) (Some n) = Some latest).
Proof.
  intros Hvs Hne.
  destruct (computeVersionData_descending b vs Hvs) as [Hsorted Hperm].
  pose proof (computeVersionData_lookup b vs 0 Hvs) as Hhead.
  destruct (computeVersionData (Some b)) as [|d0 rest] eqn:Hout.
  { apply Permutation_nil_l in Hperm. by destruct vs. }
  exists d0. split; [done|]. split.
  { cbn [lookup list_lookup] in Hhead.
    destruct (js_sort byVersionDesc vs !! 0%nat) as [v|]; [|done].
    by injection Hhead as ->. }
  assert (Hmem : forall n, n ∈ map BenchmarkVersion.version vs
                           <-> exists d, d ∈ d0 :: rest /\ VersionData.version d = n).
  { intros n. rewrite <- Hperm, list_elem_of_fmap.
    split; [intros (d & -> & Hd); eauto | intros (d & Hd & <-); eauto]. }
  split; [|split].
  - intros v Hv.
    assert (Hin : BenchmarkVersion.version v ∈ map BenchmarkVersion.version vs)
      by (apply list_elem_of_fmap; eauto).
    apply Hmem in Hin as (d & Hd & <-).
    cbn [map] in Hsorted. apply StronglySorted_inv in Hsorted as [_ Hall].
    apply elem_of_cons in Hd as [->|Hd]; [lia|].
    rewrite Forall_forall in Hall.
    assert (VersionData.version d0 >= VersionData.version d)
      by (apply Hall, list_elem_of_fmap; eauto).
    lia.
  - intros n Hn. apply Hmem in Hn as (x & Hx & Hxn).
    unfold getSelectedVersionData. change (length (d0 :: rest) =? 0)%nat with false.
    cbv iota. destruct (js_find _ (d0 :: rest)) as [d|] eqn:Hfind.
    + exists d. split; [done|]. apply js_find_elem in Hfind as [_ Hd]. by apply Z.eqb_eq.
    + pose proof (js_find_absent _ _ Hfind x Hx) as Hno. apply Z.eqb_neq in Hno. done.
  - intros n Hn.
    unfold getSelectedVersionData. change (length (d0 :: rest) =? 0)%nat with false.
    cbv iota. destruct (js_find _ (d0 :: rest)) as [d|] eqn:Hfind; [|done].
    apply js_find_elem in Hfind as [Hd Hdn]. apply Z.eqb_eq in Hdn.
    destruct Hn. apply Hmem. eauto.
Qed.

Lemma getSelectedVersionData_of_computed_witness :
  exists latest,
    getSelectedVersionData (computeVersionData (Some Sample.benchmark)) None = Some latest
    /\ VersionData.isLatest latest = true.
Proof.
  destruct (getSelectedVersionData_of_computed Sample.benchmark Sample.versions
              eq_refl ltac:(discriminate)) as (latest & Hsel & Hlatest & _).
  exists latest. by split.
Defined.

(* ===================================================================== *)
(** ** TestCaseProjector: further properties *)
(* ===================================================================== *)

(** X10.  Only the set of ids of the version matters, not their order or
    repetitions; projecting a projection again changes nothing; and the
    projection of a concatenation is the concatenation of the
    projections. *)
Theorem getVersionTestCases_set_idempotent (testCases : list TestCase.t)
    (vd : VersionData.t) :
  (forall vd',
     (forall id, id ∈ VersionData.testCaseIds vd <-> id ∈ VersionData.testCaseIds vd') ->
     getVersionTestCases testCases (Some vd') = getVersionTestCases testCases (Some vd))
  /\ getVersionTestCases (getVersionTestCases testCases (Some vd)) (Some vd)
     = getVersionTestCases testCases (Some vd)
  /\ (forall more,
        getVersionTestCases (testCases ++ more) (Some vd)
        = getVersionTestCases testCases (Some vd) ++ getVersionTestCases more (Some vd)).
Proof.
  assert (Hfilter : forall cases d, getVersionTestCases cases (Some d)
            = filter (fun tc => TestCase.id tc ∈ VersionData.testCaseIds d) cases).
  { intros cases d. unfold getVersionTestCases. apply filter_included. }
  split; [|split].
  - intros vd' Hset. rewrite !Hfilter. apply filter_iff_elem_of.
    intros tc _. symmetry. apply Hset.
  - rewrite !Hfilter. apply list_filter_filter_l. tauto.
  - intros more. rewrite !Hfilter. apply filter_app.
Qed.

Lemma getVersionTestCases_set_idempotent_witness :
  getVersionTestCases [Sample.tcA; Sample.tcB; Sample.tcC]
    (Some (VersionData.mk 1 "2026-01-01T00:00:00Z" ["a"; "c"; "a"]%string true [] [] 0))
  = getVersionTestCases [Sample.tcA; Sample.tcB; Sample.tcC]
      (Some (VersionData.mk 1 "2026-01-01T00:00:00Z" ["c"; "a"]%string true [] [] 0)).
Proof.
  apply (proj1 (getVersionTestCases_set_idempotent [Sample.tcA; Sample.tcB; Sample.tcC]
                  (VersionData.mk 1 "2026-01-01T00:00:00Z" ["c"; "a"]%string true [] [] 0))).
  intros id. cbn [VersionData.testCaseIds].
  rewrite !elem_of_cons, !elem_of_nil. tauto.
Defined.

(* ===================================================================== *)
(** ** The cancellation hook: further properties *)
(* ===================================================================== *)

(** X11.  An error of the [onSuccess] callback is treated like an error of the
    remote call: it is caught, reported with the message
    ['Failed to cancel run:'], the state cell is cleared, and the call
    returns normally. *)
Theorem handleCancelRun_callback_error
    (cancelBenchmarkRun : string -> string -> result unit)
    (benchmarkId runId : string) (error : exn) (s : Hook.state) :
  cancelBenchmarkRun benchmarkId runId = Ok tt ->
  Hook.handleCancelRun cancelBenchmarkRun benchmarkId runId (Some (Throw error)) s
  = (Hook.mk None
       (Hook.events s
        ++ [Hook.SetCancellingRunId (Some runId);
            Hook.CancelBenchmarkRun benchmarkId runId;
            Hook.OnSuccess;
            Hook.ConsoleError "Failed to cancel run:" error;
            Hook.SetCancellingRunId None]),
     Ok tt).
Proof. intros Hok. rewrite handleCancelRun_run, Hok. reflexivity. Qed.

Lemma handleCancelRun_callback_error_witness :
  Hook.handleCancelRun (fun _ _ => Ok tt) "bench-1" "run-1"
    (Some (Throw (Rejected "reload failed"))) (Hook.mk None [])
  = (Hook.mk None
       [Hook.SetCancellingRunId (Some "run-1"%string);
        Hook.CancelBenchmarkRun "bench-1" "run-1";
        Hook.OnSuccess;
        Hook.ConsoleError "Failed to cancel run:" (Rejected "reload failed");
        Hook.SetCancellingRunId None],
     Ok tt).
Proof.
  exact (handleCancelRun_callback_error (fun _ _ => Ok tt) "bench-1" "run-1"
           (Rejected "reload failed") (Hook.mk None []) eq_refl).
Defined.

(** The steps of a call, run with nothing in between, are the call. *)
Lemma run_alone_handleCancelRun (cancelBenchmarkRun : string -> string -> result unit)
    (benchmarkId runId : string) (onSuccess : option (result unit)) (s : Hook.state) :
  HookAsync.run_alone benchmarkId runId (cancelBenchmarkRun benchmarkId runId) onSuccess s
  = (Hook.handleCancelRun cancelBenchmarkRun benchmarkId runId onSuccess s).1.
Proof.
  rewrite handleCancelRun_run.
  unfold HookAsync.run_alone, HookAsync.start, HookAsync.resume, HookAsync.fail,
    HookAsync.finish, Hook.setCancellingRunId, Hook.emit.
  cbn [fst snd Hook.cancellingRunId Hook.events].
  destruct (cancelBenchmarkRun benchmarkId runId) as [[]|e];
    [destruct onSuccess as [[[]|e]|]|destruct onSuccess as [[[]|e']|]];
    cbn [defined fst snd Hook.cancellingRunId Hook.events];
    rewrite <- ?app_assoc; reflexivity.
Qed.

(** X12.  Two overlapping calls share the single state cell.  Once the second
    call has started, the first run is no longer reported as cancelling
    although its remote call is still pending; and when the first call
    completes, however it settles, the cell is cleared although the second
    call is still pending, so neither run is reported as cancelling. *)
Theorem overlapping_calls_share_the_cell
    (benchmarkA runA benchmarkB runB : string) (onSuccessA onSuccessB : bool)
    (s : Hook.state) :
  runA <> runB ->
  let s1 := (HookAsync.start benchmarkA runA onSuccessA s).1 in
  let s2 := (HookAsync.start benchmarkB runB onSuccessB s1).1 in
  Hook.isCancelling s1 runA = true
  /\ Hook.isCancelling s2 runA = false
  /\ Hook.isCancelling s2 runB = true
  /\ forall at_ outcome s3,
       HookAsync.resume at_ outcome s2 = (s3, None) ->
       forall r, Hook.isCancelling s3 r = false.
Proof.
  intros Hne. unfold HookAsync.start, Hook.isCancelling, Hook.setCancellingRunId, Hook.emit.
  cbn [fst snd Hook.cancellingRunId Hook.events].
  split; [apply String.eqb_refl|].
  split; [by apply String.eqb_neq|].
  split; [apply String.eqb_refl|].
  intros at_ outcome s3 Hres r.
  unfold HookAsync.resume, HookAsync.fail, HookAsync.finish, Hook.setCancellingRunId,
    Hook.emit in Hres.
  destruct outcome as [[]|e]; [destruct at_ as [[|]|]|]; by inversion Hres.
Qed.

Lemma overlapping_calls_share_the_cell_witness :
  Hook.isCancelling
    (HookAsync.start "bench-1" "run-2" false
       (HookAsync.start "bench-1" "run-1" false (Hook.mk None [])).1).1
    "run-1"
  = false.
Proof.
  assert (Hne : "run-1"%string <> "run-2"%string) by discriminate.
  exact (proj1 (proj2 (overlapping_calls_share_the_cell "bench-1" "run-1" "bench-1" "run-2"
                         false false (Hook.mk None []) Hne))).
Defined.
